(** * Graph colouring query module: population factory and host-graph conversion

    A shallow embedding of
    - [src/python/graph_coloring/population_factory.py]
      ([generate_individuals], [create], [_list_chunks]) and
    - [src/python/graph_coloring.py]
      ([_run_algorithm], [_convert_to_graph], [_convert_to_subgraph],
       [color_graph], [color_subgraph]),
    followed by the properties established about them.

    Python integers are [Z]; lists are [list]; dictionaries are [gmap];
    a raised exception is the [Err] branch of [result]; a function that may
    return [None] returns an [option]. *)

From Stdlib Require Import ZArith QArith.
From stdpp Require Import base option list gmap strings pretty.

Local Open Scope Z_scope.

(** ** Exceptions and the state-and-error monad *)

Inductive exn : Type :=
  | ValidationError (key : string)
  | IndexError
  | TypeError
  | ZeroDivisionError
  | KeyError (key : string)
  | AbortError.

Inductive result (A : Type) : Type :=
  | Ok (a : A)
  | Err (e : exn).
Arguments Ok {A} a.
Arguments Err {A} e.

Definition result_bind {A B} (r : result A) (k : A -> result B) : result B :=
  match r with
  | Ok a => k a
  | Err e => Err e
  end.

(** A computation over a state [S] (the random generator, or the number of
    cancellation polls made so far) that may raise. *)
Definition M (S A : Type) : Type := S -> result (A * S).

Definition ret {S A} (a : A) : M S A := fun s => Ok (a, s).
Definition raise {S A} (e : exn) : M S A := fun _ => Err e.
Definition bind {S A B} (c : M S A) (k : A -> M S B) : M S B :=
  fun s => match c s with
           | Ok (a, s') => k a s'
           | Err e => Err e
           end.
Definition lift {S A} (r : result A) : M S A :=
  fun s => match r with Ok a => Ok (a, s) | Err e => Err e end.

Declare Scope py_scope.
Delimit Scope py_scope with py.
Notation "'let*' x := c 'in' k" := (bind c (fun x => k))
  (at level 10, x pattern, c at level 100, k at level 200) : py_scope.
Local Open Scope py_scope.

(** ** Python list primitives *)

Module Py.

(** [range(n)]: empty when [n <= 0]. *)
Definition range (n : Z) : list Z := seqZ 0 n.

(** Normalisation of a slice bound against a list length, as done by
    [list.__getitem__] for a slice with step 1: a negative bound counts
    from the end, and the result is clamped to [0, len]. *)
Definition clamp (len i : Z) : Z :=
  let j := if i <? 0 then i + len else i in
  Z.max 0 (Z.min len j).

(** [l[a:b]] *)
Definition slice {A} (l : list A) (a b : Z) : list A :=
  let len := Z.of_nat (length l) in
  let lo := clamp len a in
  let hi := clamp len b in
  take (Z.to_nat (hi - lo)) (drop (Z.to_nat lo) l).

(** [l[i]]: a negative index counts from the end; out of range raises
    [IndexError]. *)
Definition index {A} (l : list A) (i : Z) : result A :=
  let len := Z.of_nat (length l) in
  let j := if i <? 0 then i + len else i in
  if (0 <=? j) && (j <? len) then
    match l !! Z.to_nat j with
    | Some x => Ok x
    | None => Err IndexError
    end
  else Err IndexError.

(** [divmod(a, b)]: floor division; [b = 0] raises. *)
Definition divmod (a b : Z) : result (Z * Z) :=
  if b =? 0 then Err ZeroDivisionError else Ok (a / b, a mod b).

(** [enumerate(l)] *)
Definition enumerate {A} (l : list A) : list (Z * A) :=
  imap (fun i x => (Z.of_nat i, x)) l.

End Py.

(** ** population_factory.py: [_list_chunks] *)

(** [individuals] may be [None] when the caller hands over the result of a
    failed [generate_individuals]; slicing [None] raises [TypeError]. *)
Definition _list_chunks {A} (individuals : option (list A))
    (population_size no_of_chunks : Z) : result (list (list A)) :=
  result_bind (Py.divmod population_size no_of_chunks) (fun '(k, m) =>
    match Py.range no_of_chunks with
    | [] => Ok []
    | idx =>
        match individuals with
        | None => Err TypeError
        | Some l =>
            Ok ((fun i => Py.slice l (i * k + Z.min i m)
                                     ((i + 1) * k + Z.min (i + 1) m)) <$> idx)
        end
    end).

(** The left end of chunk [i], for quotient [k] and remainder [m]. *)
Definition cut (k m i : Z) : Z := i * k + Z.min i m.

(** ** Values, graphs and parameter bags *)

(** The seeding heuristics importable from the colouring package. *)
Inductive Algorithm : Type := LDO | SDO.

(** Values found in a parameter bag or in an edge's property map.  Strategy
    objects ([SimpleMutation()], [ConflictError()], ...) are kept by class
    name; a float literal is kept as the rational it denotes. *)
Inductive pvalue : Type :=
  | PInt (z : Z)
  | PFloat (q : Q)
  | PStr (s : string)
  | PObj (class_name : string)
  | PAlgs (algorithms : list Algorithm).

(** Modelled from the spec: the class [Graph] is not part of the sources;
    the spec describes it as a node list together with an adjacency mapping
    from node id to a sequence of (neighbour id, weight).  The constructor
    [Graph(nodes, adj_list)] stores its two arguments. *)
Record Graph : Type := mkGraph {
  nodes : list Z;
  adj_list : gmap Z (list (Z * pvalue));
}.

Abbreviation Parameters := (gmap string pvalue).

(** An int-typed parameter at the point where the code does arithmetic with
    it.  A missing key reads as [None], and [None], strings, objects and
    lists raise [TypeError] there.  A float is treated like the other
    ill-typed values. *)
Definition as_int (v : option pvalue) : result Z :=
  match v with
  | Some (PInt z) => Ok z
  | _ => Err TypeError
  end.

(** A numeric value of the bag, for comparing two of them. *)
Definition as_number (v : option pvalue) : option Q :=
  match v with
  | Some (PInt z) => Some (inject_Z z)
  | Some (PFloat q) => Some q
  | _ => None
  end.

(** [v == n] for an int literal [n]. *)
Definition py_eq_int (v : option pvalue) (n : Z) : bool :=
  match v with
  | Some (PInt z) => z =? n
  | Some (PFloat q) => Qeq_bool q (inject_Z n)
  | _ => false
  end.

Fixpoint mapM {A B} (f : A -> result B) (l : list A) : result (list B) :=
  match l with
  | [] => Ok []
  | x :: l' =>
      result_bind (f x) (fun y =>
      result_bind (mapM f l') (fun ys => Ok (y :: ys)))
  end.

(** ** population_factory.py *)

Section PopulationFactory.

(** The classes [Individual], [LDO], [SDO] and the helpers of the
    [utils] and [framework] packages are imported by the module but are
    not part of the sources: they are parameters of the development. *)

(** Candidate colourings. *)
Variable Individual : Type.
(** State of the pseudo-random generator the constructors draw from. *)
Variable rng : Type.
(** [Individual(no_of_colors, graph)]: a fresh random individual. *)
Variable Individual_new : option pvalue -> Graph -> rng -> Individual * rng.
(** [algorithm.run(graph, parameters)]: an individual, or [None]. *)
Variable algorithm_run :
  Algorithm -> Graph -> Parameters -> rng -> option Individual * rng.
(** The per-key well-formedness test applied by the [validate]
    decorator. *)
Variable well_formed : string -> pvalue -> bool.

(** Modelled from the spec: [param_value] is not part of the sources; it
    reads a key of the bag, and a missing key reads as [None]. *)
Definition param_value (graph : Graph) (parameters : Parameters)
    (key : string) : option pvalue :=
  parameters !! key.

(** Modelled from the spec: the decorator [validate] is not part of the
    sources.  It receives the names of the keys the decorated function
    needs.  The spec has a missing or malformed required parameter fail
    validation at entry, and has [population_size < no_of_chunks] fail
    validation before chunking ([population_size] is an int that is at
    least [no_of_chunks]).  The keys are checked in the order given, one
    at a time ([validate_keys]); when both [population_size] and
    [no_of_chunks] are among them, the two are then compared. *)
Fixpoint validate_keys (keys : list string) (graph : Graph)
    (parameters : Parameters) : result unit :=
  match keys with
  | [] => Ok tt
  | key :: keys' =>
      match param_value graph parameters key with
      | Some v =>
          if well_formed key v then validate_keys keys' graph parameters
          else Err (ValidationError key)
      | None => Err (ValidationError key)
      end
  end.

Definition undersized_population (graph : Graph)
    (parameters : Parameters) : bool :=
  match as_number (param_value graph parameters "population_size"),
        as_number (param_value graph parameters "no_of_chunks") with
  | Some population_size, Some no_of_chunks =>
      negb (Qle_bool no_of_chunks population_size)
  | _, _ => false
  end.

Definition validate (keys : list string) (graph : Graph)
    (parameters : Parameters) : result unit :=
  result_bind (validate_keys keys graph parameters) (fun _ =>
    if bool_decide ("population_size"%string ∈ keys)
       && bool_decide ("no_of_chunks"%string ∈ keys)
       && undersized_population graph parameters
    then Err (ValidationError "population_size")
    else Ok tt).

(** Modelled from the spec: the classes [ChainPopulation] and
    [ChainChunk] are not part of the sources.  The spec describes them
    as containers: a [ChainPopulation] wraps the individuals it is given,
    a [ChainChunk] additionally keeps references to the boundary
    individuals of its two ring neighbours.  Their constructors store
    their arguments. *)
Inductive Population : Type :=
  | ChainPopulation (graph : Graph)
      (individuals : option (list Individual))
  | ChainChunk (graph : Graph) (individuals : list Individual)
      (prev_individual next_individual : Individual).

(** The [for algorithm in algorithms] loop of [generate_individuals];
    [individuals] is the list built so far.  The outer [option] is the
    early [return None]. *)
Fixpoint seed_loop (algorithms : list Algorithm) (graph : Graph)
    (parameters : Parameters) (population_size : option pvalue)
    (individuals : list Individual)
    : M rng (option (list Individual)) :=
  match algorithms with
  | [] => ret (Some individuals)
  | algorithm :: algorithms' =>
      let* indv :=
        (fun s => Ok (algorithm_run algorithm graph parameters s)) in
      match indv with
      | None => ret None
      | Some indv =>
          let* p := lift (as_int population_size) in
          let individuals' :=
            if Z.of_nat (length individuals) <? p
            then individuals ++ [indv] else individuals in
          seed_loop algorithms' graph parameters population_size individuals'
      end
  end.

(** [[Individual(no_of_colors, graph) for _ in range(n)]] *)
Fixpoint random_individuals (n : nat) (no_of_colors : option pvalue)
    (graph : Graph) (s : rng) : list Individual * rng :=
  match n with
  | O => ([], s)
  | S n' =>
      let (indv, s1) := Individual_new no_of_colors graph s in
      let (rest, s2) := random_individuals n' no_of_colors graph s1 in
      (indv :: rest, s2)
  end.

Definition generate_individuals (graph : Graph) (parameters : Parameters)
    : M rng (option (list Individual)) :=
  let* _ := lift (validate ["population_size"; "no_of_colors"]%string
                           graph parameters) in
  let population_size := param_value graph parameters "population_size" in
  let no_of_colors := param_value graph parameters "no_of_colors" in
  let algorithms := param_value graph parameters "algorithms" in
  let* seeded :=
    match algorithms with
    | None => ret (Some [])
    | Some (PAlgs algorithms) =>
        seed_loop algorithms graph parameters population_size []
    | Some _ => raise TypeError
    end in
  match seeded with
  | None => ret None
  | Some individuals =>
      let* p := lift (as_int population_size) in
      let n := Z.to_nat (p - Z.of_nat (length individuals)) in
      fun s =>
        let (fresh, s') := random_individuals n no_of_colors graph s in
        Ok (Some (individuals ++ fresh), s')
  end.

(** The seeding step in the words of the spec, to compare the loop
    against: the algorithms the bag configures (none when the key is
    absent), and each of them run once, in order, on the generator state
    its predecessor left; no list when one of them produces no
    individual. *)
Definition configured_algorithms (parameters : Parameters)
    : option (list Algorithm) :=
  match parameters !! "algorithms"%string with
  | None => Some []
  | Some (PAlgs algorithms) => Some algorithms
  | Some _ => None
  end.

Fixpoint run_algorithms (algorithms : list Algorithm) (graph : Graph)
    (parameters : Parameters) (s : rng) : option (list Individual) * rng :=
  match algorithms with
  | [] => (Some [], s)
  | algorithm :: algorithms' =>
      match algorithm_run algorithm graph parameters s with
      | (None, s1) => (None, s1)
      | (Some indv, s1) =>
          let (rest, s2) := run_algorithms algorithms' graph parameters s1 in
          (cons indv <$> rest, s2)
      end
  end.

(** One iteration of the [for i, chunk in enumerate(chunks)] loop of
    [create]: the population appended for chunk [i]. *)
Definition wire (graph : Graph) (chunks : list (list Individual))
    (no_of_chunks : Z) (ic : Z * list Individual) : result Population :=
  let '(i, chunk) := ic in
  let prev_chunk := if i - 1 >? 0 then i - 1 else no_of_chunks - 1 in
  let next_chunk := if i + 1 <? no_of_chunks then i + 1 else 0 in
  result_bind (Py.index chunks prev_chunk) (fun pc =>
  result_bind (Py.index pc (-1)) (fun prev_individual =>
  result_bind (Py.index chunks next_chunk) (fun nc =>
  result_bind (Py.index nc 0) (fun next_individual =>
  Ok (ChainChunk graph chunk prev_individual next_individual))))).

Definition create (graph : Graph) (parameters : Parameters)
    : M rng (list Population) :=
  let* _ := lift (validate ["population_size"; "no_of_chunks"]%string
                           graph parameters) in
  let population_size := param_value graph parameters "population_size" in
  let no_of_chunks := param_value graph parameters "no_of_chunks" in
  let* individuals := generate_individuals graph parameters in
  if py_eq_int no_of_chunks 1 then
    ret [ChainPopulation graph individuals]
  else
    let* p := lift (as_int population_size) in
    let* n := lift (as_int no_of_chunks) in
    let* chunks := lift (_list_chunks individuals p n) in
    lift (mapM (wire graph chunks n) (Py.enumerate chunks)).

End PopulationFactory.

Arguments ChainPopulation {Individual} graph individuals.
Arguments ChainChunk {Individual} graph individuals
  prev_individual next_individual.

(** ** graph_coloring.py: conversion of the host graph *)

(** The part of the host API ([mgp]) the module reads.  An edge exposes
    its two endpoints, of which only the ids are read, and its property
    map; a vertex exposes its id and its outgoing edges; the procedure
    context exposes the vertices of the stored graph and the cancellation
    check, whose answer may change from one poll to the next. *)
Module mgp.

Record Edge : Type := mkEdge {
  from_vertex : Z;
  to_vertex : Z;
  properties : gmap string pvalue;
}.

Record Vertex : Type := mkVertex {
  id : Z;
  out_edges : list Edge;
}.

Record ProcCtx : Type := mkProcCtx {
  vertices : list Vertex;
  must_abort : nat -> bool;
}.

(** [context.check_must_abort()]; the state counts the polls made. *)
Definition check_must_abort (context : ProcCtx) : M nat unit :=
  fun polls =>
    if must_abort context polls then Err AbortError
    else Ok (tt, S polls).

End mgp.

Abbreviation AdjList := (gmap Z (list (Z * pvalue))).

(** [adj_list[k].append(x)] on a [defaultdict(list)] *)
Definition adj_append (k : Z) (x : Z * pvalue) (adj_list : AdjList)
    : AdjList :=
  <[k := (adj_list !!! k) ++ [x]]> adj_list.

(** The three statements executed for one edge [e]. *)
Definition add_edge (e : mgp.Edge) (adj_list : AdjList) : result AdjList :=
  match mgp.properties e !! "weight"%string with
  | None => Err (KeyError "weight")
  | Some weight =>
      Ok (adj_append (mgp.to_vertex e) (mgp.from_vertex e, weight)
            (adj_append (mgp.from_vertex e) (mgp.to_vertex e, weight)
               adj_list))
  end.

(** [for v in ...: context.check_must_abort(); nodes.append(v.id)] *)
Fixpoint collect_nodes (context : mgp.ProcCtx) (vs : list mgp.Vertex)
    (nodes : list Z) : M nat (list Z) :=
  match vs with
  | [] => ret nodes
  | v :: vs' =>
      let* _ := mgp.check_must_abort context in
      collect_nodes context vs' (nodes ++ [mgp.id v])
  end.

(** [for e in v.out_edges: ...] (no poll inside) *)
Fixpoint add_out_edges (es : list mgp.Edge) (adj_list : AdjList)
    : result AdjList :=
  match es with
  | [] => Ok adj_list
  | e :: es' => result_bind (add_edge e adj_list) (add_out_edges es')
  end.

(** The second loop of [_convert_to_graph]. *)
Fixpoint collect_out_edges (context : mgp.ProcCtx) (vs : list mgp.Vertex)
    (adj_list : AdjList) : M nat AdjList :=
  match vs with
  | [] => ret adj_list
  | v :: vs' =>
      let* _ := mgp.check_must_abort context in
      let* adj_list' := lift (add_out_edges (mgp.out_edges v) adj_list) in
      collect_out_edges context vs' adj_list'
  end.

(** The second loop of [_convert_to_subgraph]. *)
Fixpoint collect_edges (context : mgp.ProcCtx) (es : list mgp.Edge)
    (adj_list : AdjList) : M nat AdjList :=
  match es with
  | [] => ret adj_list
  | e :: es' =>
      let* _ := mgp.check_must_abort context in
      let* adj_list' := lift (add_edge e adj_list) in
      collect_edges context es' adj_list'
  end.

Definition _convert_to_graph (context : mgp.ProcCtx) : M nat Graph :=
  let* nodes := collect_nodes context (mgp.vertices context) [] in
  let* adj_list := collect_out_edges context (mgp.vertices context) ∅ in
  ret (mkGraph nodes adj_list).

Definition _convert_to_subgraph (context : mgp.ProcCtx)
    (vertices : list mgp.Vertex) (edges : list mgp.Edge) : M nat Graph :=
  let* nodes := collect_nodes context vertices [] in
  let* adj_list := collect_edges context edges ∅ in
  ret (mkGraph nodes adj_list).

(** Node [u]'s adjacency sequence (empty when [u] has no entry). *)
Definition neighbours (g : Graph) (u : Z) : list (Z * pvalue) :=
  adj_list g !!! u.

(** The invariant of the data model: adjacency is symmetric. *)
Definition adj_symmetric (adj : AdjList) : Prop :=
  forall u v w, (v, w) ∈ adj !!! u -> (u, w) ∈ adj !!! v.
Definition symmetric (g : Graph) : Prop := adj_symmetric (adj_list g).

(** What the statements executed for edge [e] append to node [u]'s
    adjacency sequence: the entry for its head when [u] is its tail, then
    the entry for its tail when [u] is its head. *)
Definition edge_entries (u : Z) (e : mgp.Edge) : list (Z * pvalue) :=
  match mgp.properties e !! "weight"%string with
  | None => []
  | Some weight =>
      (if decide (u = mgp.from_vertex e)
       then [(mgp.to_vertex e, weight)] else [])
      ++ (if decide (u = mgp.to_vertex e)
          then [(mgp.from_vertex e, weight)] else [])
  end.

(** The edges [_convert_to_graph] reads, in the order it reads them. *)
Definition host_edges (context : mgp.ProcCtx) : list mgp.Edge :=
  concat (mgp.out_edges <$> mgp.vertices context).

(** ** graph_coloring.py: running the search *)

Definition _default_parameters : Parameters :=
  list_to_map
    [ ("no_of_processes", PInt 1);
      ("no_of_chunks", PInt 1);
      ("communication_delay", PInt 10);
      ("max_iterations", PInt 10);
      ("population_size", PInt 7);
      ("no_of_colors", PInt 3);
      ("max_steps", PInt 25);
      ("temperature", PFloat (35 # 1000));
      ("mutation", PObj "SimpleMutation");
      ("error", PObj "ConflictError");
      ("alpha", PFloat (1 # 10));
      ("beta", PFloat (1 # 1000));
      ("algorithms", PAlgs [LDO; SDO]);
      ("logging_delay", PInt 5);
      ("convergence_tolerance", PInt 500);
      ("convergence_probability", PFloat (5 # 10));
      ("max_attempts_tunneling", PInt 10);
      ("neigh_mutation_probability", PFloat (35 # 1000));
      ("mutation_tunneling", PObj "MultipleMutation");
      ("multiple_mutation_no_of_nodes", PInt 5);
      ("random_mutation_probability", PFloat (1 # 10));
      ("random_mutation_probability_2", PFloat (5 # 10)) ]%string.

(** A row of the procedure's result. *)
Record Record : Type := mkRecord { node : string; color : string }.

Section Procedures.

(** The search driver [QA] and the label lookup of [Graph] are imported
    by the module but are not part of the sources: they are parameters
    of the development. *)

(** State the search threads (its random generator). *)
Variable search_state : Type.
(** The individual returned by the search, and its [chromosome]. *)
Variable Solution : Type.
Variable chromosome : Solution -> list Z.
(** [QA().run(graph, parameters)] *)
Variable QA_run : Graph -> Parameters -> M search_state Solution.
(** [str(g.label(node))] *)
Variable label : Graph -> Z -> string.

Definition _run_algorithm (graph : Graph) (parameters : Parameters)
    : M search_state (list Z) :=
  let* sol := QA_run graph _default_parameters in
  ret (chromosome sol).

(** [[mgp.Record(node=str(g.label(node)), color=str(color))
      for node, color in enumerate(sol)]] *)
Definition records (g : Graph) (sol : list Z) : list Record :=
  (fun nc : Z * Z => mkRecord (label g nc.1) (pretty nc.2))
    <$> Py.enumerate sol.

(** The conversion polls the host; the search does not. *)
Definition polling {A} (c : M nat A) : M (nat * search_state) A :=
  fun '(polls, s) =>
    match c polls with
    | Ok (a, polls') => Ok (a, (polls', s))
    | Err e => Err e
    end.
Definition searching {A} (c : M search_state A)
    : M (nat * search_state) A :=
  fun '(polls, s) =>
    match c s with
    | Ok (a, s') => Ok (a, (polls, s'))
    | Err e => Err e
    end.

Definition color_graph (context : mgp.ProcCtx) (parameters : Parameters)
    : M (nat * search_state) (list Record) :=
  let* g := polling (_convert_to_graph context) in
  let* sol := searching (_run_algorithm g parameters) in
  ret (records g sol).

Definition color_subgraph (context : mgp.ProcCtx)
    (vertices : list mgp.Vertex) (edges : list mgp.Edge)
    (parameters : Parameters) : M (nat * search_state) (list Record) :=
  let* g := polling (_convert_to_subgraph context vertices edges) in
  let* sol := searching (_run_algorithm g parameters) in
  ret (records g sol).

End Procedures.

(** ** A concrete instance of the parameters of the development

    Individuals are numbered: the random constructor numbers them from the
    generator state, which is a counter; a seeding heuristic returns a
    fixed number per heuristic, and no individual on a graph without nodes
    (spec, ordering heuristics).  The search stub reports the number of
    colours of the bag it is run with. *)
Module Instance.

Definition Individual : Type := Z.
Definition rng : Type := Z.

Definition Individual_new (no_of_colors : option pvalue) (graph : Graph)
    (s : rng) : Individual * rng :=
  (s, s + 1).

Definition algorithm_run (algorithm : Algorithm) (graph : Graph)
    (parameters : Parameters) (s : rng) : option Individual * rng :=
  match nodes graph with
  | [] => (None, s)
  | _ => (Some (match algorithm with LDO => 100 | SDO => 200 end), s)
  end.

(** Every present value is accepted. *)
Definition well_formed (key : string) (v : pvalue) : bool := true.

Definition generate_individuals :=
  generate_individuals Individual rng Individual_new algorithm_run
    well_formed.
Definition create :=
  create Individual rng Individual_new algorithm_run well_formed.

Definition Solution : Type := list Z.
Definition chromosome (sol : Solution) : list Z := sol.
Definition QA_run (graph : Graph) (parameters : Parameters)
    : M unit Solution :=
  let* c := lift (as_int (parameters !! "no_of_colors"%string)) in
  ret [c].
Definition _run_algorithm := _run_algorithm unit Solution chromosome QA_run.
Definition color_graph :=
  color_graph unit Solution chromosome QA_run (fun _ n => pretty n).

Definition empty_graph : Graph := mkGraph [] ∅.
Definition path_graph : Graph :=
  mkGraph [1; 2]
    (<[1 := [(2, PInt 1)]]> (<[2 := [(1, PInt 1)]]> ∅)).

(** A host graph with the edge 1 -> 2 of weight 1; an edge 1 -> 3 that
    carries no weight; the graphs the conversions build from them. *)
Definition e12 : mgp.Edge := mgp.mkEdge 1 2 {["weight"%string := PInt 1]}.
Definition e13 : mgp.Edge := mgp.mkEdge 1 3 ∅.
Definition loop : mgp.Edge :=
  mgp.mkEdge 1 1 {["weight"%string := PInt 7]}.
Definition v1 : mgp.Vertex := mgp.mkVertex 1 [e12].
Definition v2 : mgp.Vertex := mgp.mkVertex 2 [].
Definition v3 : mgp.Vertex := mgp.mkVertex 1 [e13].
Definition host : mgp.ProcCtx := mgp.mkProcCtx [v1; v2] (fun _ => false).
Definition unweighted_host : mgp.ProcCtx :=
  mgp.mkProcCtx [v2; v3] (fun _ => false).
(** The same stored graph on a host that requests cancellation from its
    second poll on. *)
Definition cancelling_host : mgp.ProcCtx :=
  mgp.mkProcCtx [v1; v2] (fun polls => bool_decide (1 <= polls)%nat).
Definition dangling_graph : Graph :=
  mkGraph [1]
    (adj_append 2 (1, PInt 1) (adj_append 1 (2, PInt 1) ∅)).

Definition bag (population_size no_of_chunks : Z) : Parameters :=
  <["population_size" := PInt population_size]>
    (<["no_of_chunks" := PInt no_of_chunks]>
       (<["no_of_colors" := PInt 3]> ∅)).

Definition seeded_bag (population_size no_of_chunks : Z) : Parameters :=
  <["algorithms" := PAlgs [LDO; SDO]]> (bag population_size no_of_chunks).

End Instance.

(** * Properties *)

(** ** Slices and chunking *)

Example list_chunks_10_3 :
  _list_chunks (Some [0;1;2;3;4;5;6;7;8;9]) 10 3
  = Ok [[0;1;2;3]; [4;5;6]; [7;8;9]].
Proof. reflexivity. Qed.

Lemma slice_in_range {A} (l : list A) (a b : Z) :
  0 <= a -> a <= b -> b <= Z.of_nat (length l) ->
  Py.slice l a b = take (Z.to_nat (b - a)) (drop (Z.to_nat a) l).
Proof.
  intros Ha Hab Hb. unfold Py.slice, Py.clamp.
  destruct (Z.ltb_spec a 0); [lia|].
  destruct (Z.ltb_spec b 0); [lia|].
  rewrite (Z.min_r _ a), (Z.min_r _ b), !Z.max_r by lia. reflexivity.
Qed.

Lemma cut_step k m i :
  cut k m (i + 1) - cut k m i = k + (if i <? m then 1 else 0).
Proof. unfold cut. destruct (Z.ltb_spec i m); lia. Qed.

Section Chunking.

Context {A : Type} (l : list A) (N : Z).
Hypothesis HN : 1 <= N.

Let p := Z.of_nat (length l).
Let k := p / N.
Let m := p mod N.

Lemma chunk_quotient : p = N * k + m /\ 0 <= m < N /\ 0 <= k.
Proof.
  subst k m. split; [apply Z.div_mod; lia|].
  split; [apply Z.mod_pos_bound; lia|].
  apply Z.div_pos; subst p; lia.
Qed.

Lemma cut_bounds i : 0 <= i <= N -> 0 <= cut k m i <= p.
Proof.
  destruct chunk_quotient as (Hp & Hm & Hk). intros Hi. unfold cut. nia.
Qed.

Lemma cut_last : cut k m N = p.
Proof. destruct chunk_quotient as (Hp & Hm & Hk). unfold cut. lia. Qed.

Lemma cut_facts i :
  0 <= i < N ->
  exists c d : Z,
    cut k m i = c /\ cut k m (i + 1) = c + d /\
    d = k + (if i <? m then 1 else 0) /\ 0 <= c /\ 0 <= d /\ c + d <= p.
Proof.
  intros Hi. exists (cut k m i), (k + (if i <? m then 1 else 0)).
  pose proof (cut_bounds i ltac:(lia)).
  pose proof (cut_bounds (i + 1) ltac:(lia)).
  pose proof (cut_step k m i) as Hs.
  destruct chunk_quotient as (_ & _ & Hk).
  repeat split; try lia. destruct (i <? m); lia.
Qed.

Lemma chunk_slice i :
  0 <= i < N ->
  Py.slice l (cut k m i) (cut k m (i + 1))
  = take (Z.to_nat (k + (if i <? m then 1 else 0)))
         (drop (Z.to_nat (cut k m i)) l).
Proof.
  intros Hi. destruct (cut_facts i Hi) as (c & d & -> & -> & <- & ? & ? & ?).
  rewrite slice_in_range by (fold p; lia). do 2 f_equal. lia.
Qed.

Lemma chunk_length i :
  0 <= i < N ->
  Z.of_nat (length (Py.slice l (cut k m i) (cut k m (i + 1))))
  = k + (if i <? m then 1 else 0).
Proof.
  intros Hi. rewrite chunk_slice by done.
  destruct (cut_facts i Hi) as (c & d & -> & _ & <- & ? & ? & Hp).
  rewrite length_take, length_drop. subst p. clear k m. lia.
Qed.

Lemma concat_chunks (n : nat) :
  Z.of_nat n <= N ->
  concat ((fun i => Py.slice l (cut k m i) (cut k m (i + 1)))
            <$> seqZ 0 (Z.of_nat n))
  = take (Z.to_nat (cut k m (Z.of_nat n))) l.
Proof.
  induction n as [|n IH]; intros Hn.
  - replace (cut k m (Z.of_nat 0)) with 0
      by (destruct chunk_quotient as (_ & ? & _); unfold cut; lia).
    done.
  - rewrite Nat2Z.inj_succ, <- Z.add_1_r.
    rewrite seqZ_app by lia.
    change (seqZ (0 + Z.of_nat n) 1) with [Z.of_nat n].
    rewrite fmap_app, concat_app, IH by lia. simpl. rewrite app_nil_r.
    destruct (cut_facts (Z.of_nat n) ltac:(lia))
      as (c & d & -> & -> & _ & ? & ? & ?).
    rewrite slice_in_range by (fold p; lia).
    rewrite take_take_drop. f_equal. lia.
Qed.

End Chunking.

Lemma list_chunks_eq {A} (l : list A) (p N : Z) :
  1 <= N ->
  _list_chunks (Some l) p N
  = Ok ((fun i => Py.slice l (cut (p / N) (p mod N) i)
                             (cut (p / N) (p mod N) (i + 1)))
          <$> seqZ 0 N).
Proof.
  intros HN. unfold _list_chunks, Py.divmod, Py.range.
  destruct (Z.eqb_spec N 0); [lia|]. simpl.
  destruct (seqZ 0 N) eqn:E; [|done].
  apply (f_equal length) in E. rewrite length_seqZ in E. simpl in E. lia.
Qed.

(** The size of the chunk at position [i]. *)
Lemma chunk_lookup_length {A} (l : list A) (N : Z) (i : nat) chunk :
  1 <= N ->
  ((fun i => Py.slice l
               (cut (Z.of_nat (length l) / N) (Z.of_nat (length l) mod N) i)
               (cut (Z.of_nat (length l) / N) (Z.of_nat (length l) mod N)
                    (i + 1)))
     <$> seqZ 0 N) !! i = Some chunk ->
  Z.of_nat (length chunk)
  = Z.of_nat (length l) / N
    + (if Z.of_nat i <? Z.of_nat (length l) mod N then 1 else 0).
Proof.
  intros HN Hi. rewrite list_lookup_fmap in Hi.
  destruct (seqZ 0 N !! i) as [j|] eqn:Hj; [|done].
  apply lookup_seqZ in Hj as [-> Hj]. simpl in Hi.
  injection Hi as <-. rewrite Z.add_0_l.
  apply chunk_length; lia.
Qed.

(** C5. With as many individuals as [population_size] and
    [1 <= no_of_chunks <= population_size], [_list_chunks] returns
    [no_of_chunks] groups; group [i] has [population_size // no_of_chunks]
    elements, plus one when [i < population_size % no_of_chunks]; and the
    groups concatenated in order give back the list, that is, they are
    contiguous and in the original order. *)
Theorem list_chunks_partition {A} (individuals : list A)
    (population_size no_of_chunks : Z) :
  Z.of_nat (length individuals) = population_size ->
  1 <= no_of_chunks <= population_size ->
  exists chunks,
    _list_chunks (Some individuals) population_size no_of_chunks = Ok chunks
    /\ Z.of_nat (length chunks) = no_of_chunks
    /\ (forall (i : nat) (chunk : list A),
          chunks !! i = Some chunk ->
          Z.of_nat (length chunk)
          = population_size / no_of_chunks
            + (if Z.of_nat i <? population_size mod no_of_chunks
               then 1 else 0))
    /\ concat chunks = individuals.
Proof.
  intros Hlen [HN HNp]. eexists. split; [by apply list_chunks_eq|].
  subst population_size. split; [|split].
  - rewrite length_fmap, length_seqZ. lia.
  - intros i chunk Hi. by apply chunk_lookup_length.
  - pose proof (concat_chunks individuals no_of_chunks HN
                  (Z.to_nat no_of_chunks)) as Hcat.
    rewrite Z2Nat.id, cut_last in Hcat by lia.
    rewrite Hcat by lia. apply take_ge. lia.
Qed.

Lemma list_chunks_partition_witness :
  exists chunks,
    _list_chunks (Some [0; 1; 2; 3; 4; 5; 6; 7; 8; 9]) 10 3 = Ok chunks
    /\ length <$> chunks = [4; 3; 3]%nat
    /\ concat chunks = [0; 1; 2; 3; 4; 5; 6; 7; 8; 9].
Proof.
  destruct (list_chunks_partition [0; 1; 2; 3; 4; 5; 6; 7; 8; 9] 10 3)
    as (chunks & Hc & _ & _ & Hcat); [reflexivity | lia |].
  exists chunks. split; [exact Hc|]. split; [|exact Hcat].
  vm_compute in Hc. injection Hc as <-. reflexivity.
Defined.

(** ** Conversion of the host graph *)

Lemma elem_of_adj_append (k : Z) (x : Z * pvalue) (adj : AdjList) u y :
  y ∈ adj_append k x adj !!! u <-> y ∈ adj !!! u \/ (u = k /\ y = x).
Proof.
  unfold adj_append. destruct (decide (k = u)) as [->|Hne].
  - rewrite lookup_total_insert_eq, elem_of_app, list_elem_of_singleton.
    tauto.
  - rewrite lookup_total_insert_ne by done. intuition congruence.
Qed.

Lemma elem_of_add_edge e adj adj' u v w :
  add_edge e adj = Ok adj' ->
  (v, w) ∈ adj' !!! u <->
    (v, w) ∈ adj !!! u
    \/ (mgp.properties e !! "weight"%string = Some w
        /\ ((u = mgp.from_vertex e /\ v = mgp.to_vertex e)
            \/ (u = mgp.to_vertex e /\ v = mgp.from_vertex e))).
Proof.
  unfold add_edge. destruct (mgp.properties e !! _) as [weight|]; [|done].
  intros [= <-]. rewrite !elem_of_adj_append.
  split; intros H; intuition (simplify_eq; auto).
Qed.

Lemma add_edge_error e adj err :
  add_edge e adj = Err err ->
  err = KeyError "weight" /\ mgp.properties e !! "weight"%string = None.
Proof.
  unfold add_edge. destruct (mgp.properties e !! _); [done|].
  by intros [= <-].
Qed.

Lemma add_edge_symmetric e adj adj' :
  add_edge e adj = Ok adj' -> adj_symmetric adj -> adj_symmetric adj'.
Proof.
  intros He Hsym u v w. rewrite !(elem_of_add_edge e adj adj') by done.
  intros [Hold|[Hw Hnew]]; [left; by apply Hsym | right; tauto].
Qed.

Lemma add_edge_mono e adj adj' u y :
  add_edge e adj = Ok adj' -> y ∈ adj !!! u -> y ∈ adj' !!! u.
Proof.
  destruct y as [v w]. intros He Hy.
  rewrite (elem_of_add_edge e adj adj') by done. by left.
Qed.

Lemma adj_symmetric_empty : adj_symmetric ∅.
Proof. intros u v w. rewrite lookup_total_empty. by intros ?%elem_of_nil. Qed.

Lemma add_out_edges_symmetric es adj adj' :
  add_out_edges es adj = Ok adj' -> adj_symmetric adj -> adj_symmetric adj'.
Proof.
  revert adj. induction es as [|e es IH]; simpl; intros adj.
  - by intros [= <-].
  - destruct (add_edge e adj) as [adj1|] eqn:He; [|done]. simpl.
    intros Hes Hsym. eapply IH; [done|]. by eapply add_edge_symmetric.
Qed.

Lemma add_out_edges_error es adj err :
  add_out_edges es adj = Err err -> err = KeyError "weight".
Proof.
  revert adj. induction es as [|e es IH]; simpl; intros adj; [done|].
  destruct (add_edge e adj) as [adj1|err'] eqn:He; simpl.
  - apply IH.
  - intros [= <-]. by apply add_edge_error in He as [-> _].
Qed.

Lemma add_out_edges_missing es adj e :
  e ∈ es -> mgp.properties e !! "weight"%string = None ->
  add_out_edges es adj = Err (KeyError "weight").
Proof.
  intros He Hw. destruct (add_out_edges es adj) as [adj'|err] eqn:Hes.
  - exfalso. revert adj Hes.
    induction es as [|e' es IH]; [by apply elem_of_nil in He|].
    simpl. intros adj. destruct (add_edge e' adj) as [adj1|] eqn:He'; [|done].
    simpl. apply elem_of_cons in He as [<-|He]; [|by apply IH].
    unfold add_edge in He'. by rewrite Hw in He'.
  - by apply add_out_edges_error in Hes as ->.
Qed.

(** The monadic loops, one poll at a time. *)
Lemma check_must_abort_cases context polls :
  (mgp.must_abort context polls = false
   /\ mgp.check_must_abort context polls = Ok (tt, S polls))
  \/ (mgp.must_abort context polls = true
      /\ mgp.check_must_abort context polls = Err AbortError).
Proof. unfold mgp.check_must_abort. destruct (mgp.must_abort _ _); auto. Qed.

Ltac poll ctx n :=
  unfold bind at 1;
  destruct (check_must_abort_cases ctx n) as [[? ->]|[? ->]].

Lemma collect_out_edges_symmetric ctx vs adj polls adj' polls' :
  collect_out_edges ctx vs adj polls = Ok (adj', polls') ->
  adj_symmetric adj -> adj_symmetric adj'.
Proof.
  revert adj polls. induction vs as [|v vs IH]; simpl; intros adj polls.
  - by intros [= <- _].
  - poll ctx polls; [|done]. unfold bind, lift.
    destruct (add_out_edges _ adj) as [adj1|] eqn:Hes; [|done].
    intros Hvs Hsym. eapply IH; [done|]. by eapply add_out_edges_symmetric.
Qed.

Lemma collect_edges_symmetric ctx es adj polls adj' polls' :
  collect_edges ctx es adj polls = Ok (adj', polls') ->
  adj_symmetric adj -> adj_symmetric adj'.
Proof.
  revert adj polls. induction es as [|e es IH]; simpl; intros adj polls.
  - by intros [= <- _].
  - poll ctx polls; [|done]. unfold bind, lift.
    destruct (add_edge e adj) as [adj1|] eqn:He; [|done].
    intros Hes Hsym. eapply IH; [done|]. by eapply add_edge_symmetric.
Qed.

Lemma convert_to_graph_inv context polls g polls' :
  _convert_to_graph context polls = Ok (g, polls') ->
  exists polls1,
    collect_nodes context (mgp.vertices context) [] polls
    = Ok (nodes g, polls1)
    /\ collect_out_edges context (mgp.vertices context) ∅ polls1
       = Ok (adj_list g, polls').
Proof.
  unfold _convert_to_graph, bind, ret.
  destruct (collect_nodes _ _ _ _) as [[ns polls1]|]; [|done].
  destruct (collect_out_edges _ _ _ _) as [[adj polls2]|] eqn:Hadj; [|done].
  intros [= <- <-]. by exists polls1.
Qed.

Lemma convert_to_subgraph_inv context vertices edges polls g polls' :
  _convert_to_subgraph context vertices edges polls = Ok (g, polls') ->
  exists polls1,
    collect_nodes context vertices [] polls = Ok (nodes g, polls1)
    /\ collect_edges context edges ∅ polls1 = Ok (adj_list g, polls').
Proof.
  unfold _convert_to_subgraph, bind, ret.
  destruct (collect_nodes _ _ _ _) as [[ns polls1]|]; [|done].
  destruct (collect_edges _ _ _ _) as [[adj polls2]|] eqn:Hadj; [|done].
  intros [= <- <-]. by exists polls1.
Qed.

(** C8. The graph built from the host graph, in full-graph mode and in
    subgraph mode alike, has a symmetric adjacency: whenever [(v, w)] is
    in node [u]'s adjacency sequence, [(u, w)] is in node [v]'s. *)
Theorem converted_graph_symmetric (context : mgp.ProcCtx)
    (vertices : list mgp.Vertex) (edges : list mgp.Edge)
    (polls polls' : nat) (g : Graph) :
  _convert_to_graph context polls = Ok (g, polls')
  \/ _convert_to_subgraph context vertices edges polls = Ok (g, polls') ->
  symmetric g.
Proof.
  intros [H|H].
  - apply convert_to_graph_inv in H as (polls1 & _ & H).
    eapply collect_out_edges_symmetric; [done|apply adj_symmetric_empty].
  - apply convert_to_subgraph_inv in H as (polls1 & _ & H).
    eapply collect_edges_symmetric; [done|apply adj_symmetric_empty].
Qed.

Lemma converted_graph_symmetric_witness :
  exists g polls',
    _convert_to_graph Instance.host 0%nat = Ok (g, polls')
    /\ symmetric g
    /\ exists g' polls'',
         _convert_to_subgraph Instance.host [Instance.v1] [Instance.e12] 0%nat
         = Ok (g', polls'')
         /\ symmetric g'.
Proof.
  eexists _, _. split; [vm_compute; reflexivity|]. split.
  - apply (converted_graph_symmetric Instance.host [] [] 0%nat 4%nat).
    left. vm_compute. reflexivity.
  - eexists _, _. split; [vm_compute; reflexivity|].
    apply (converted_graph_symmetric Instance.host
             [Instance.v1] [Instance.e12] 0%nat 2%nat).
    right. vm_compute. reflexivity.
Defined.

Lemma collect_edges_mono ctx es adj polls adj' polls' u y :
  collect_edges ctx es adj polls = Ok (adj', polls') ->
  y ∈ adj !!! u -> y ∈ adj' !!! u.
Proof.
  revert adj polls. induction es as [|e es IH]; simpl; intros adj polls.
  - by intros [= <- _].
  - poll ctx polls; [|done]. unfold bind, lift.
    destruct (add_edge e adj) as [adj1|] eqn:He; [|done].
    intros Hes Hy. eapply IH; [done|]. by eapply add_edge_mono.
Qed.

Lemma collect_edges_contains ctx es adj polls adj' polls' e :
  collect_edges ctx es adj polls = Ok (adj', polls') ->
  e ∈ es ->
  exists weight,
    mgp.properties e !! "weight"%string = Some weight
    /\ (mgp.to_vertex e, weight) ∈ adj' !!! mgp.from_vertex e
    /\ (mgp.from_vertex e, weight) ∈ adj' !!! mgp.to_vertex e.
Proof.
  revert adj polls.
  induction es as [|e' es IH]; simpl; intros adj polls;
    [by intros _ ?%elem_of_nil|].
  poll ctx polls; [|done]. unfold bind, lift.
  destruct (add_edge e' adj) as [adj1|] eqn:He'; [|done].
  intros Hes [<-|He]%elem_of_cons; [|by eapply IH].
  destruct (mgp.properties e !! "weight"%string) as [weight|] eqn:Hw;
    [|unfold add_edge in He'; by rewrite Hw in He'].
  exists weight. split; [done|].
  split; eapply collect_edges_mono; try done;
    rewrite (elem_of_add_edge e adj adj1) by done; right; auto.
Qed.

(** C9. [_convert_to_subgraph] adds every supplied edge to the adjacency
    mapping in both orientations, whether or not its endpoints are among
    the supplied vertices; and for some input with an edge whose endpoint
    is not a supplied vertex, the adjacency of the resulting graph has a
    node id that is not in its node list. *)
Theorem subgraph_edges_not_checked_against_vertices :
  (forall (context : mgp.ProcCtx) (vertices : list mgp.Vertex)
          (edges : list mgp.Edge) (polls polls' : nat) (g : Graph),
      _convert_to_subgraph context vertices edges polls = Ok (g, polls') ->
      forall e, e ∈ edges ->
        exists weight,
          mgp.properties e !! "weight"%string = Some weight
          /\ (mgp.to_vertex e, weight) ∈ neighbours g (mgp.from_vertex e)
          /\ (mgp.from_vertex e, weight) ∈ neighbours g (mgp.to_vertex e))
  /\ (exists (context : mgp.ProcCtx) (vertices : list mgp.Vertex)
             (edges : list mgp.Edge) (polls polls' : nat) (g : Graph)
             (e : mgp.Edge),
        _convert_to_subgraph context vertices edges polls = Ok (g, polls')
        /\ e ∈ edges
        /\ (mgp.to_vertex e ∉ fmap mgp.id vertices)
        /\ mgp.to_vertex e ∈ dom (adj_list g)
        /\ (mgp.to_vertex e ∉ nodes g)).
Proof.
  split.
  - intros context vertices edges polls polls' g H e He.
    apply convert_to_subgraph_inv in H as (polls1 & _ & H).
    by eapply collect_edges_contains.
  - exists Instance.host, [Instance.v1], [Instance.e12], 0%nat, 2%nat.
    eexists _, Instance.e12. split; [vm_compute; reflexivity|].
    split; [by apply list_elem_of_singleton|].
    split; [by intros ?%list_elem_of_singleton|].
    split; [by apply elem_of_dom|by intros ?%list_elem_of_singleton].
Qed.

Lemma subgraph_edges_not_checked_against_vertices_witness :
  exists weight,
    (2, weight) ∈ neighbours Instance.dangling_graph 1
    /\ (1, weight) ∈ neighbours Instance.dangling_graph 2.
Proof.
  destruct subgraph_edges_not_checked_against_vertices as [H _].
  destruct (H Instance.host [Instance.v1] [Instance.e12] 0%nat 2%nat
              Instance.dangling_graph) with (e := Instance.e12)
    as (weight & _ & H1 & H2);
    [vm_compute; reflexivity | by apply list_elem_of_singleton |].
  by exists weight.
Defined.

(** ** Edges without a weight *)

Lemma collect_nodes_result ctx vs ns polls :
  (forall n, mgp.must_abort ctx n = false) ->
  collect_nodes ctx vs ns polls
  = Ok (ns ++ (mgp.id <$> vs), (polls + length vs)%nat).
Proof.
  intros Hno. revert ns polls. induction vs as [|v vs IH]; simpl; intros.
  - unfold ret. by rewrite app_nil_r, Nat.add_0_r.
  - unfold bind, mgp.check_must_abort. rewrite Hno, IH.
    by rewrite <- app_assoc, Nat.add_succ_r.
Qed.

Lemma collect_out_edges_missing ctx vs adj polls :
  (forall n, mgp.must_abort ctx n = false) ->
  (exists v e, v ∈ vs /\ e ∈ mgp.out_edges v
               /\ mgp.properties e !! "weight"%string = None) ->
  collect_out_edges ctx vs adj polls = Err (KeyError "weight").
Proof.
  intros Hno (v0 & e & Hv0 & He & Hw). revert adj polls.
  induction vs as [|v vs IH]; simpl; intros adj polls;
    [by apply elem_of_nil in Hv0|].
  unfold bind at 1, mgp.check_must_abort. rewrite Hno. unfold bind, lift.
  apply elem_of_cons in Hv0 as [<-|Hv0].
  - by rewrite (add_out_edges_missing _ _ e).
  - destruct (add_out_edges _ adj) as [adj1|err] eqn:Hes; [by apply IH|].
    by apply add_out_edges_error in Hes as ->.
Qed.

Lemma collect_edges_missing ctx es adj polls :
  (forall n, mgp.must_abort ctx n = false) ->
  (exists e, e ∈ es /\ mgp.properties e !! "weight"%string = None) ->
  collect_edges ctx es adj polls = Err (KeyError "weight").
Proof.
  intros Hno (e & He & Hw). revert adj polls.
  induction es as [|e' es IH]; simpl; intros adj polls;
    [by apply elem_of_nil in He|].
  unfold bind at 1, mgp.check_must_abort. rewrite Hno. unfold bind, lift.
  destruct (add_edge e' adj) as [adj1|err] eqn:He'.
  - apply elem_of_cons in He as [<-|He]; [|by apply IH].
    unfold add_edge in He'. by rewrite Hw in He'.
  - by apply add_edge_error in He' as [-> _].
Qed.

(** C10. When the host graph has an edge without a ["weight"] property
    (an outgoing edge of one of its vertices in full-graph mode, one of
    the supplied edges in subgraph mode), the conversion raises the key
    error of the property lookup and returns no graph; the weight is not
    defaulted.  The host is taken not to request cancellation during the
    call. *)
Theorem missing_weight_raises_key_error (context : mgp.ProcCtx)
    (vertices : list mgp.Vertex) (edges : list mgp.Edge) (polls : nat) :
  (forall n, mgp.must_abort context n = false) ->
  ((exists v e, v ∈ mgp.vertices context /\ e ∈ mgp.out_edges v
                /\ mgp.properties e !! "weight"%string = None) ->
   _convert_to_graph context polls = Err (KeyError "weight"))
  /\ ((exists e, e ∈ edges
                 /\ mgp.properties e !! "weight"%string = None) ->
      _convert_to_subgraph context vertices edges polls
      = Err (KeyError "weight")).
Proof.
  intros Hno. split; intros Hmissing.
  - unfold _convert_to_graph, bind.
    rewrite collect_nodes_result by done.
    by rewrite collect_out_edges_missing.
  - unfold _convert_to_subgraph, bind.
    rewrite collect_nodes_result by done.
    by rewrite collect_edges_missing.
Qed.

Lemma missing_weight_raises_key_error_witness :
  _convert_to_graph Instance.unweighted_host 0%nat = Err (KeyError "weight")
  /\ _convert_to_subgraph Instance.host [Instance.v1; Instance.v2]
       [Instance.e12; Instance.e13] 0%nat
     = Err (KeyError "weight").
Proof.
  split.
  - apply (missing_weight_raises_key_error Instance.unweighted_host [] [] 0%nat);
      [done|].
    exists Instance.v3, Instance.e13.
    split; [|split; [by apply list_elem_of_singleton|done]].
    apply elem_of_cons; right. by apply list_elem_of_singleton.
  - apply (missing_weight_raises_key_error Instance.host
             [Instance.v1; Instance.v2] [Instance.e12; Instance.e13] 0%nat);
      [done|].
    exists Instance.e13. split; [|done].
    apply elem_of_cons; right. by apply list_elem_of_singleton.
Defined.

(** Whatever the host answers to the cancellation polls, an edge without
    weight never lets a graph through. *)
Lemma collect_out_edges_no_graph ctx vs adj polls adj' polls' :
  (exists v e, v ∈ vs /\ e ∈ mgp.out_edges v
               /\ mgp.properties e !! "weight"%string = None) ->
  collect_out_edges ctx vs adj polls <> Ok (adj', polls').
Proof.
  intros (v0 & e & Hv0 & He & Hw). revert adj polls.
  induction vs as [|v vs IH]; simpl; intros adj polls;
    [by apply elem_of_nil in Hv0|].
  poll ctx polls; [|done]. unfold bind, lift.
  apply elem_of_cons in Hv0 as [<-|Hv0].
  - by rewrite (add_out_edges_missing _ _ e).
  - destruct (add_out_edges _ adj) as [adj1|err]; [by apply IH|done].
Qed.

Lemma missing_weight_no_graph context polls g polls' :
  (exists v e, v ∈ mgp.vertices context /\ e ∈ mgp.out_edges v
               /\ mgp.properties e !! "weight"%string = None) ->
  _convert_to_graph context polls <> Ok (g, polls').
Proof.
  intros Hmissing H. apply convert_to_graph_inv in H as (polls1 & _ & H).
  by eapply collect_out_edges_no_graph.
Qed.

(** The conversions return a graph when the host does not request
    cancellation and every edge read carries a weight. *)
Lemma add_out_edges_weighted es adj :
  Forall (fun e => is_Some (mgp.properties e !! "weight"%string)) es ->
  exists adj', add_out_edges es adj = Ok adj'.
Proof.
  intros Hw. revert adj. induction Hw as [|e es [w He] _ IH]; intros adj.
  - by exists adj.
  - simpl. unfold add_edge. rewrite He. simpl. apply IH.
Qed.

Lemma collect_out_edges_returns ctx vs adj polls :
  (forall n, mgp.must_abort ctx n = false) ->
  Forall (fun v =>
            Forall (fun e => is_Some (mgp.properties e !! "weight"%string))
                   (mgp.out_edges v)) vs ->
  exists adj' polls',
    collect_out_edges ctx vs adj polls = Ok (adj', polls').
Proof.
  intros Hno Hw. revert adj polls.
  induction Hw as [|v vs Hv _ IH]; intros adj polls.
  - by exists adj, polls.
  - simpl. unfold bind at 1, mgp.check_must_abort. rewrite Hno.
    destruct (add_out_edges_weighted _ adj Hv) as [adj1 Hadj1].
    unfold bind, lift. rewrite Hadj1. apply IH.
Qed.

Lemma collect_edges_returns ctx es adj polls :
  (forall n, mgp.must_abort ctx n = false) ->
  Forall (fun e => is_Some (mgp.properties e !! "weight"%string)) es ->
  exists adj' polls', collect_edges ctx es adj polls = Ok (adj', polls').
Proof.
  intros Hno Hw. revert adj polls.
  induction Hw as [|e es [w He] _ IH]; intros adj polls.
  - by exists adj, polls.
  - simpl. unfold bind at 1, mgp.check_must_abort. rewrite Hno.
    unfold bind, lift, add_edge. rewrite He. apply IH.
Qed.

Lemma convert_to_graph_returns ctx polls :
  (forall n, mgp.must_abort ctx n = false) ->
  Forall (fun v =>
            Forall (fun e => is_Some (mgp.properties e !! "weight"%string))
                   (mgp.out_edges v)) (mgp.vertices ctx) ->
  exists adj polls',
    _convert_to_graph ctx polls
    = Ok (mkGraph (mgp.id <$> mgp.vertices ctx) adj, polls').
Proof.
  intros Hno Hw. unfold _convert_to_graph, bind.
  rewrite collect_nodes_result by done.
  destruct (collect_out_edges_returns ctx (mgp.vertices ctx) ∅
              (polls + length (mgp.vertices ctx)) Hno Hw)
    as (adj & polls' & ->).
  by exists adj, polls'.
Qed.

Lemma convert_to_subgraph_returns ctx vertices edges polls :
  (forall n, mgp.must_abort ctx n = false) ->
  Forall (fun e => is_Some (mgp.properties e !! "weight"%string)) edges ->
  exists adj polls',
    _convert_to_subgraph ctx vertices edges polls
    = Ok (mkGraph (mgp.id <$> vertices) adj, polls').
Proof.
  intros Hno Hw. unfold _convert_to_subgraph, bind.
  rewrite collect_nodes_result by done.
  destruct (collect_edges_returns ctx edges ∅
              (polls + length vertices) Hno Hw) as (adj & polls' & ->).
  by exists adj, polls'.
Qed.

(** ** The population factory *)

Section PopulationFactoryProperties.

Context {Individual rng : Type}.
Context (Individual_new : option pvalue -> Graph -> rng -> Individual * rng).
Context (algorithm_run :
           Algorithm -> Graph -> Parameters -> rng -> option Individual * rng).
Context (well_formed : string -> pvalue -> bool).

Local Abbreviation validate := (validate well_formed).
Local Abbreviation validate_keys := (validate_keys well_formed).
Local Abbreviation seed_loop := (seed_loop Individual rng algorithm_run).
Local Abbreviation run_algorithms :=
  (run_algorithms Individual rng algorithm_run).
Local Abbreviation random_individuals :=
  (random_individuals Individual rng Individual_new).
Local Abbreviation generate_individuals :=
  (generate_individuals Individual rng Individual_new algorithm_run
     well_formed).
Local Abbreviation create :=
  (create Individual rng Individual_new algorithm_run well_formed).

Lemma validate_keys_cons key keys g (ps : Parameters) :
  validate_keys (key :: keys) g ps = Ok tt <->
  (exists v, ps !! key = Some v /\ well_formed key v = true)
  /\ validate_keys keys g ps = Ok tt.
Proof.
  simpl. unfold param_value. destruct (ps !! key) as [v|].
  - destruct (well_formed key v) eqn:Hw.
    + split; [intros; split; eauto | by intros [_ ?]].
    + split; [done | intros [(v0 & [= <-] & Hw') _]; congruence].
  - split; [done | by intros [(v0 & ? & _) _]].
Qed.

Lemma validate_keys_error keys g (ps : Parameters) e :
  validate_keys keys g ps = Err e -> exists key, e = ValidationError key.
Proof.
  induction keys as [|key keys IH]; simpl; [done|].
  destruct (param_value g ps key) as [v|]; [|intros [= <-]; eauto].
  destruct (well_formed key v); [done|intros [= <-]; eauto].
Qed.

Lemma validate_error keys g (ps : Parameters) e :
  validate keys g ps = Err e -> exists key, e = ValidationError key.
Proof.
  unfold validate.
  destruct (validate_keys keys g ps) as [[]|e'] eqn:Hkeys; simpl.
  - destruct (_ && _); [intros [= <-]; eauto|done].
  - intros [= <-]. by eapply validate_keys_error.
Qed.

(** The two keys [generate_individuals] names are checked one by one
    only: [no_of_chunks] is not among them. *)
Lemma validate_generation g (ps : Parameters) :
  validate ["population_size"; "no_of_colors"]%string g ps
  = validate_keys ["population_size"; "no_of_colors"]%string g ps.
Proof.
  unfold validate.
  by destruct (validate_keys ["population_size"; "no_of_colors"]%string
                 g ps) as [[]|].
Qed.

Lemma run_algorithms_length algs g ps s outs s1 :
  run_algorithms algs g ps s = (Some outs, s1) ->
  length outs = length algs.
Proof.
  revert s outs. induction algs as [|a algs IH]; simpl; intros s outs.
  - by intros [= <- _].
  - destruct (algorithm_run a g ps s) as [[indv|] s0]; [|done].
    destruct (run_algorithms algs g ps s0) as [[rest|] s2] eqn:Hr;
      [|done].
    simpl. intros [= <- <-]. simpl. f_equal. by eapply IH.
Qed.

(** The loop keeps the outputs that still fit under [population_size]
    and runs every algorithm, unless one fails. *)
Lemma seed_loop_spec algs g ps (p : Z) acc s :
  seed_loop algs g ps (Some (PInt p)) acc s
  = match run_algorithms algs g ps s with
    | (Some outs, s1) =>
        Ok (Some (acc ++ take (Z.to_nat (p - Z.of_nat (length acc))) outs),
            s1)
    | (None, s1) => Ok (None, s1)
    end.
Proof.
  revert acc s. induction algs as [|a algs IH]; simpl; intros acc s.
  - unfold ret. by rewrite take_nil, app_nil_r.
  - unfold bind at 1.
    destruct (algorithm_run a g ps s) as [[indv|] s0]; [|done].
    unfold bind, lift. simpl. rewrite IH.
    destruct (run_algorithms algs g ps s0) as [[rest|] s2]; [|done].
    simpl. do 3 f_equal.
    destruct (Z.ltb_spec (Z.of_nat (length acc)) p) as [Hlt|Hge].
    + rewrite length_app. simpl.
      replace (Z.to_nat (p - Z.of_nat (length acc)))
        with (S (Z.to_nat (p - Z.of_nat (length acc + 1)))) by lia.
      simpl. by rewrite <- app_assoc.
    + by replace (Z.to_nat (p - Z.of_nat (length acc))) with 0%nat by lia.
Qed.

Lemma random_individuals_length n c g s :
  length (random_individuals n c g s).1 = n.
Proof.
  revert s. induction n as [|n IH]; simpl; intros s; [done|].
  destruct (Individual_new c g s) as [indv s1].
  specialize (IH s1).
  destruct (random_individuals n c g s1) as [rest s2]. simpl in *.
  by f_equal.
Qed.

(** [generate_individuals] once validation has passed and the bag holds
    an int [population_size] and a list of algorithms (or none). *)
Lemma generate_individuals_eq g (ps : Parameters) s p algs :
  validate ["population_size"; "no_of_colors"]%string g ps = Ok tt ->
  ps !! "population_size"%string = Some (PInt p) ->
  configured_algorithms ps = Some algs ->
  generate_individuals g ps s
  = match run_algorithms algs g ps s with
    | (Some outs, s1) =>
        let seeded := take (Z.to_nat p) outs in
        let (fresh, s2) :=
          random_individuals (Z.to_nat (p - Z.of_nat (length seeded)))
            (ps !! "no_of_colors"%string) g s1 in
        Ok (Some (seeded ++ fresh), s2)
    | (None, s1) => Ok (None, s1)
    end.
Proof.
  intros Hv Hp Halgs. unfold generate_individuals. rewrite Hv.
  unfold bind at 1, lift at 1. unfold param_value. rewrite Hp.
  unfold configured_algorithms in Halgs. unfold bind at 1.
  destruct (ps !! "algorithms"%string) as [[]|]; simplify_eq.
  - rewrite seed_loop_spec. simpl.
    destruct (run_algorithms algs g ps s) as [[outs|] s1]; [|done].
    unfold bind, lift. simpl. by rewrite Z.sub_0_r.
  - unfold ret, bind, lift. simpl. rewrite take_nil. simpl.
    by rewrite Z.sub_0_r.
Qed.

Lemma generate_individuals_inv g (ps : Parameters) s r :
  generate_individuals g ps s = Ok r ->
  validate ["population_size"; "no_of_colors"]%string g ps = Ok tt
  /\ exists algs, configured_algorithms ps = Some algs.
Proof.
  unfold generate_individuals, configured_algorithms, bind at 1, lift at 1.
  destruct (validate _ g ps) as [[]|]; [|done]. intros H. split; [done|].
  unfold param_value, bind at 1 in H.
  destruct (ps !! "algorithms"%string) as [[]|]; eauto; done.
Qed.

Lemma generate_individuals_length g (ps : Parameters) s p individuals s1 :
  ps !! "population_size"%string = Some (PInt p) ->
  generate_individuals g ps s = Ok (Some individuals, s1) ->
  length individuals = Z.to_nat p.
Proof.
  intros Hp H.
  destruct (generate_individuals_inv _ _ _ _ H) as (Hv & algs & Halgs).
  rewrite (generate_individuals_eq g ps s p algs) in H by done.
  destruct (run_algorithms algs g ps s) as [[outs|] s0]; [|done].
  simpl in H.
  pose proof (random_individuals_length
    (Z.to_nat (p - Z.of_nat (length (take (Z.to_nat p) outs))))
    (ps !! "no_of_colors"%string) g s0) as Hlen.
  destruct (random_individuals _ _ g s0) as [fresh s2].
  injection H as <- _. simpl in Hlen.
  rewrite length_app, Hlen, length_take. lia.
Qed.

(** C6. When every configured seeding algorithm succeeds,
    [generate_individuals] returns [population_size] individuals: first
    the outputs of the algorithms in configuration order, cut off at
    [population_size] (so [min (number of algorithms) population_size] of
    them), then individuals built by the random constructor. *)
Theorem generate_individuals_population g (ps : Parameters) s
    p c algs outs s1 :
  ps !! "population_size"%string = Some (PInt p) ->
  well_formed "population_size" (PInt p) = true ->
  ps !! "no_of_colors"%string = Some c ->
  well_formed "no_of_colors" c = true ->
  0 <= p ->
  configured_algorithms ps = Some algs ->
  run_algorithms algs g ps s = (Some outs, s1) ->
  exists fresh s2,
    random_individuals (Z.to_nat p - Nat.min (length algs) (Z.to_nat p))
      (Some c) g s1 = (fresh, s2)
    /\ generate_individuals g ps s
       = Ok (Some (take (Z.to_nat p) outs ++ fresh), s2)
    /\ Z.of_nat (length (take (Z.to_nat p) outs ++ fresh)) = p
    /\ length (take (Z.to_nat p) outs)
       = Nat.min (length algs) (Z.to_nat p).
Proof.
  intros Hp Hwp Hc Hwc Hp0 Halgs Hrun.
  assert (Hv : validate ["population_size"; "no_of_colors"]%string g ps
               = Ok tt).
  { rewrite validate_generation.
    apply validate_keys_cons. split; [eauto|].
    apply validate_keys_cons. split; [eauto|done]. }
  rewrite (generate_individuals_eq g ps s p algs), Hrun, Hc by done.
  simpl.
  assert (Hlen : length (take (Z.to_nat p) outs)
                 = Nat.min (length algs) (Z.to_nat p)).
  { rewrite length_take, (run_algorithms_length _ _ _ _ _ _ Hrun). lia. }
  replace (Z.to_nat (p - Z.of_nat (length (take (Z.to_nat p) outs))))
    with (Z.to_nat p - Nat.min (length algs) (Z.to_nat p))%nat by lia.
  pose proof (random_individuals_length
    (Z.to_nat p - Nat.min (length algs) (Z.to_nat p)) (Some c) g s1) as Hf.
  destruct (random_individuals _ _ g s1) as [fresh s2]. simpl in Hf.
  exists fresh, s2. repeat split; [|done].
  rewrite length_app, Hlen, Hf. lia.
Qed.

(** [create] when [no_of_chunks == 1], whatever the seeding returned. *)
Lemma create_one_chunk g (ps : Parameters) s individuals s' :
  validate ["population_size"; "no_of_chunks"]%string g ps = Ok tt ->
  py_eq_int (ps !! "no_of_chunks"%string) 1 = true ->
  generate_individuals g ps s = Ok (individuals, s') ->
  create g ps s = Ok ([ChainPopulation g individuals], s').
Proof.
  intros Hv H1 Hgen. unfold create. rewrite Hv.
  unfold bind, lift at 1. rewrite Hgen. unfold param_value.
  by rewrite H1.
Qed.

(** C7. With [no_of_chunks == 1], [create] returns exactly one
    population: a [ChainPopulation] around all the generated individuals;
    no [ChainChunk], hence no neighbour reference, is built. *)
Theorem create_single_chain_population g (ps : Parameters) s
    individuals s' :
  validate ["population_size"; "no_of_chunks"]%string g ps = Ok tt ->
  py_eq_int (ps !! "no_of_chunks"%string) 1 = true ->
  generate_individuals g ps s = Ok (Some individuals, s') ->
  create g ps s = Ok ([ChainPopulation g (Some individuals)], s').
Proof.
  intros Hv H1 Hgen. unfold create.
  rewrite Hv. unfold bind at 1, lift at 1.
  unfold bind. rewrite Hgen.
  unfold param_value. rewrite H1. reflexivity.
Qed.

(** Seeding failure: the first algorithm that returns no individual makes
    [generate_individuals] return [None]. *)
Lemma generate_individuals_failure g (ps : Parameters) s p algs s1 :
  validate ["population_size"; "no_of_colors"]%string g ps = Ok tt ->
  ps !! "population_size"%string = Some (PInt p) ->
  configured_algorithms ps = Some algs ->
  run_algorithms algs g ps s = (None, s1) ->
  generate_individuals g ps s = Ok (None, s1).
Proof.
  intros Hv Hp Halgs Hrun.
  by rewrite (generate_individuals_eq g ps s p algs), Hrun.
Qed.

(** With two chunks or more, [create] then fails when [_list_chunks]
    slices the [None] it was handed. *)
Lemma create_failed_seeding_chunks g (ps : Parameters) s p N s1 :
  validate ["population_size"; "no_of_chunks"]%string g ps = Ok tt ->
  ps !! "population_size"%string = Some (PInt p) ->
  ps !! "no_of_chunks"%string = Some (PInt N) ->
  2 <= N ->
  generate_individuals g ps s = Ok (None, s1) ->
  create g ps s = Err TypeError.
Proof.
  intros Hv Hp HN HN2 Hgen. unfold create. rewrite Hv.
  unfold bind, lift at 1. rewrite Hgen. unfold param_value.
  rewrite HN, Hp. simpl. destruct (Z.eqb_spec N 1); [lia|]. simpl.
  unfold _list_chunks, Py.divmod. destruct (Z.eqb_spec N 0); [lia|].
  simpl. unfold Py.range.
  destruct (seqZ 0 N) eqn:E; [|done].
  apply (f_equal length) in E. rewrite length_seqZ in E. simpl in E. lia.
Qed.

(** *** Wiring of the ring *)

Lemma index_lookup {A} (l : list A) (i : Z) x :
  0 <= i -> l !! Z.to_nat i = Some x -> Py.index l i = Ok x.
Proof.
  intros Hi Hx. unfold Py.index.
  destruct (Z.ltb_spec i 0); [lia|].
  apply lookup_lt_Some in Hx as Hlt. rewrite Hx.
  destruct (Z.leb_spec 0 i); [|lia].
  destruct (Z.ltb_spec i (Z.of_nat (length l))); [done|lia].
Qed.

Lemma index_last {A} (l : list A) x :
  last l = Some x -> Py.index l (-1) = Ok x.
Proof.
  rewrite last_lookup. intros Hx. unfold Py.index.
  apply lookup_lt_Some in Hx as Hlt. simpl.
  replace (Z.to_nat (-1 + Z.of_nat (length l))) with (pred (length l))
    by lia.
  rewrite Hx.
  destruct (Z.leb_spec 0 (-1 + Z.of_nat (length l))); [|lia].
  destruct (Z.ltb_spec (-1 + Z.of_nat (length l)) (Z.of_nat (length l)));
    [done|lia].
Qed.

Lemma index_last_nil {A} : Py.index (@nil A) (-1) = Err IndexError.
Proof. reflexivity. Qed.

Lemma slice_nil {A} a b : Py.slice (@nil A) a b = [].
Proof. unfold Py.slice. by rewrite drop_nil, take_nil. Qed.

(** With fewer individuals than chunks, the last chunk is empty. *)
Lemma last_chunk_empty {A} (l : list A) (p N : Z) :
  length l = Z.to_nat p -> p < N ->
  Py.slice l (cut (p / N) (p mod N) (N - 1))
             (cut (p / N) (p mod N) (N - 1 + 1)) = [].
Proof.
  intros Hlen HpN. destruct (Z.lt_ge_cases p 0) as [Hneg|Hpos].
  - destruct l; [apply slice_nil|simpl in Hlen; lia].
  - rewrite Z.div_small, Z.mod_small by lia. unfold cut.
    replace ((N - 1) * 0 + Z.min (N - 1) p) with p by lia.
    replace ((N - 1 + 1) * 0 + Z.min (N - 1 + 1) p) with p by lia.
    rewrite slice_in_range by lia. by rewrite Z.sub_diag.
Qed.

Lemma undersized_population_ints g (ps : Parameters) p N :
  ps !! "population_size"%string = Some (PInt p) ->
  ps !! "no_of_chunks"%string = Some (PInt N) ->
  undersized_population g ps = (p <? N).
Proof.
  intros Hp HN. unfold undersized_population, param_value.
  rewrite Hp, HN. simpl. unfold Qle_bool. simpl.
  by rewrite !Z.mul_1_r, Z.ltb_antisym.
Qed.

(** C2.  With [population_size < no_of_chunks] (for instance 2 and 5)
    [create] fails with the validation error raised by its entry
    validation: the individuals are not generated and no chunking is
    attempted, whatever the seeding algorithms and the generator state
    are, so neither chunks nor an error of the chunk construction come
    out. *)
Theorem create_undersized_fails_validation g (ps : Parameters) s p N :
  ps !! "population_size"%string = Some (PInt p) ->
  ps !! "no_of_chunks"%string = Some (PInt N) ->
  p < N ->
  exists key,
    validate ["population_size"; "no_of_chunks"]%string g ps
    = Err (ValidationError key)
    /\ create g ps s = Err (ValidationError key).
Proof.
  intros Hp HN HpN.
  assert (Hv : exists key,
             validate ["population_size"; "no_of_chunks"]%string g ps
             = Err (ValidationError key)).
  { unfold validate.
    destruct (validate_keys _ g ps) as [[]|e] eqn:Hkeys;
      cbn [result_bind].
    - rewrite !bool_decide_eq_true_2 by repeat constructor.
      rewrite (undersized_population_ints g ps p N) by done.
      destruct (Z.ltb_spec p N); [|lia]. simpl. eauto.
    - apply validate_keys_error in Hkeys as [key ->]. eauto. }
  destruct Hv as [key Hv]. exists key. split; [done|].
  unfold create. by rewrite Hv.
Qed.

Lemma index_head {A} (l : list A) x :
  head l = Some x -> Py.index l 0 = Ok x.
Proof.
  rewrite head_lookup. intros H. by apply (index_lookup l 0 x).
Qed.

Lemma mapM_imap {A B C} (f : B -> result C) (h : nat -> A -> B)
    (P : nat -> A -> C -> Prop) (l : list A) :
  (forall i x, l !! i = Some x -> exists y, f (h i x) = Ok y /\ P i x y) ->
  exists ys,
    mapM f (imap h l) = Ok ys
    /\ length ys = length l
    /\ forall i x, l !! i = Some x -> exists y, ys !! i = Some y /\ P i x y.
Proof.
  revert h P. induction l as [|x l IH]; intros h P Hf.
  - exists []. by split.
  - destruct (Hf 0%nat x eq_refl) as (y & Hy & HP).
    destruct (IH (h ∘ S) (P ∘ S)) as (ys & Hys & Hlen & Hall).
    { intros i x' Hi. by apply (Hf (S i)). }
    exists (y :: ys). simpl. rewrite Hy. simpl. rewrite Hys. simpl.
    split; [done|]. split; [by f_equal|].
    intros [|i] x' Hi; simplify_eq/=; eauto.
Qed.

(** The chunk whose tail [create] takes for chunk [i]'s
    [prev_individual], and the one whose head it takes for its
    [next_individual], as the conditional expressions compute them. *)
Lemma wire_ok g (chunks : list (list Individual)) (N : Z) (i : nat) chunk :
  Z.of_nat (length chunks) = N -> 2 <= N ->
  Forall (fun c => c <> []) chunks ->
  chunks !! i = Some chunk ->
  exists prev next,
    wire Individual g chunks N (Z.of_nat i, chunk)
    = Ok (ChainChunk g chunk prev next)
    /\ chunks !! Z.to_nat (if Z.of_nat i - 1 >? 0
                           then Z.of_nat i - 1 else N - 1)
         ≫= last = Some prev
    /\ chunks !! Z.to_nat (if Z.of_nat i + 1 <? N
                           then Z.of_nat i + 1 else 0)
         ≫= head = Some next.
Proof.
  intros Hlen HN Hne Hi. apply lookup_lt_Some in Hi as Hlt.
  unfold wire.
  set (pi := if Z.of_nat i - 1 >? 0 then Z.of_nat i - 1 else N - 1).
  set (ni := if Z.of_nat i + 1 <? N then Z.of_nat i + 1 else 0).
  assert (Hpi : 0 <= pi < N).
  { unfold pi. destruct (Z.gtb_spec (Z.of_nat i - 1) 0); lia. }
  assert (Hni : 0 <= ni < N).
  { unfold ni. destruct (Z.ltb_spec (Z.of_nat i + 1) N); lia. }
  destruct (lookup_lt_is_Some_2 chunks (Z.to_nat pi)) as [pc Hpc]; [lia|].
  destruct (lookup_lt_is_Some_2 chunks (Z.to_nat ni)) as [nc Hnc]; [lia|].
  rewrite Forall_lookup in Hne.
  destruct (last pc) as [prev|] eqn:Hprev;
    [|apply last_None in Hprev; by apply Hne in Hpc].
  destruct (head nc) as [next|] eqn:Hnext;
    [|apply head_None in Hnext; by apply Hne in Hnc].
  exists prev, next.
  rewrite (index_lookup _ pi pc), (index_lookup _ ni nc) by (done || lia).
  simpl. rewrite (index_last pc prev), (index_head nc next) by done.
  rewrite Hpc, Hnc. by simpl.
Qed.

(** What [create] builds for two chunks or more when there are at least
    as many individuals as chunks: one [ChainChunk] per chunk, in order;
    the [next_individual] of chunk [i] is the head of chunk
    [(i + 1) mod N]; its [prev_individual] is the tail of chunk [i - 1]
    when [i - 1 > 0] and the tail of chunk [N - 1] otherwise, that is,
    for chunk 0 and for chunk 1. *)
Lemma create_wiring g (ps : Parameters) s p N individuals s1 :
  validate ["population_size"; "no_of_chunks"]%string g ps = Ok tt ->
  ps !! "population_size"%string = Some (PInt p) ->
  ps !! "no_of_chunks"%string = Some (PInt N) ->
  2 <= N <= p ->
  generate_individuals g ps s = Ok (Some individuals, s1) ->
  exists chunks populations,
    _list_chunks (Some individuals) p N = Ok chunks
    /\ create g ps s = Ok (populations, s1)
    /\ length populations = Z.to_nat N
    /\ forall (i : nat) chunk,
         chunks !! i = Some chunk ->
         exists prev next,
           populations !! i = Some (ChainChunk g chunk prev next)
           /\ chunks !! Z.to_nat (if Z.of_nat i - 1 >? 0
                                  then Z.of_nat i - 1 else N - 1)
                ≫= last = Some prev
           /\ chunks !! Z.to_nat ((Z.of_nat i + 1) mod N)
                ≫= head = Some next.
Proof.
  intros Hv Hp HN [HN2 HNp] Hgen.
  pose proof (generate_individuals_length _ _ _ _ _ _ Hp Hgen) as Hlen.
  assert (Hp' : p = Z.of_nat (length individuals)) by lia.
  pose proof (list_chunks_eq individuals p N ltac:(lia)) as Hchunks.
  set (chunks := _ <$> seqZ 0 N) in Hchunks.
  assert (Hsize : Z.of_nat (length chunks) = N).
  { unfold chunks. rewrite length_fmap, length_seqZ. lia. }
  assert (Hne : Forall (fun c => c <> []) chunks).
  { apply Forall_lookup. intros i c Hc ->.
    unfold chunks in Hc. rewrite Hp' in Hc.
    apply chunk_lookup_length in Hc; [|lia]. rewrite <- Hp' in Hc.
    simpl in Hc.
    assert (1 <= p / N) by (apply Z.div_le_lower_bound; lia).
    destruct (Z.of_nat i <? p mod N); lia. }
  destruct (mapM_imap (wire Individual g chunks N)
              (fun i x => (Z.of_nat i, x))
              (fun i chunk y => exists prev next,
                 y = ChainChunk g chunk prev next
                 /\ chunks !! Z.to_nat (if Z.of_nat i - 1 >? 0
                                        then Z.of_nat i - 1 else N - 1)
                      ≫= last = Some prev
                 /\ chunks !! Z.to_nat ((Z.of_nat i + 1) mod N)
                      ≫= head = Some next)
              chunks) as (pops & Hpops & Hplen & Hall).
  { intros i chunk Hi.
    destruct (wire_ok g chunks N i chunk) as (prev & next & Hw & Hpr & Hnx);
      [done..|].
    eexists. split; [exact Hw|]. exists prev, next.
    split; [done|]. split; [done|].
    apply lookup_lt_Some in Hi as Hlt.
    destruct (Z.ltb_spec (Z.of_nat i + 1) N).
    - by rewrite Z.mod_small by lia.
    - replace (Z.of_nat i + 1) with N by lia. by rewrite Z.mod_same by lia. }
  exists chunks, pops. split; [done|]. split; [|split; [lia|]].
  - unfold create. rewrite Hv. unfold bind, lift at 1. rewrite Hgen.
    unfold param_value. rewrite Hp, HN. simpl.
    destruct (Z.eqb_spec N 1); [lia|]. simpl. rewrite Hchunks.
    unfold Py.enumerate, lift. by rewrite Hpops.
  - intros i chunk Hi.
    destruct (Hall i chunk Hi) as (y & Hy & prev & next & -> & ? & ?).
    by exists prev, next.
Qed.

(** In particular chunk 1 gets the tail of the last chunk, for any number
    of chunks. *)
Lemma create_wiring_second_chunk g (ps : Parameters) s p N individuals s1 :
  validate ["population_size"; "no_of_chunks"]%string g ps = Ok tt ->
  ps !! "population_size"%string = Some (PInt p) ->
  ps !! "no_of_chunks"%string = Some (PInt N) ->
  2 <= N <= p ->
  generate_individuals g ps s = Ok (Some individuals, s1) ->
  exists chunks populations chunk prev next,
    _list_chunks (Some individuals) p N = Ok chunks
    /\ create g ps s = Ok (populations, s1)
    /\ populations !! 1%nat = Some (ChainChunk g chunk prev next)
    /\ chunks !! Z.to_nat (N - 1) ≫= last = Some prev.
Proof.
  intros Hv Hp HN HNp Hgen.
  destruct (create_wiring g ps s p N individuals s1)
    as (chunks & pops & Hchunks & Hcreate & Hlen & Hall); [done..|].
  destruct (lookup_lt_is_Some_2 chunks 1) as [chunk Hchunk].
  { rewrite list_chunks_eq in Hchunks by lia. injection Hchunks as <-.
    rewrite length_fmap, length_seqZ. lia. }
  destruct (Hall 1%nat chunk Hchunk) as (prev & next & Hpop & Hprev & _).
  by exists chunks, pops, chunk, prev, next.
Qed.

End PopulationFactoryProperties.

(** ** The factory on concrete bags *)

Example create_10_3 :
  Instance.create Instance.path_graph (Instance.seeded_bag 10 3) 0
  = Ok ([ ChainChunk Instance.path_graph [100; 200; 0; 1] 7 2;
          ChainChunk Instance.path_graph [2; 3; 4] 7 5;
          ChainChunk Instance.path_graph [5; 6; 7] 4 100 ], 8).
Proof. vm_compute. reflexivity. Qed.

Lemma generate_individuals_population_witness :
  Instance.generate_individuals Instance.path_graph
    (Instance.seeded_bag 3 1) 0
  = Ok (Some [100; 200; 0], 1).
Proof.
  destruct (generate_individuals_population Instance.Individual_new
              Instance.algorithm_run Instance.well_formed
              Instance.path_graph (Instance.seeded_bag 3 1) 0
              3 (PInt 3) [LDO; SDO] [100; 200] 0)
    as (fresh & s2 & Hf & Hg & _);
    [reflexivity | reflexivity | reflexivity | reflexivity | lia
    | reflexivity | reflexivity |].
  vm_compute in Hf. injection Hf as <- <-. exact Hg.
Defined.

Lemma create_single_chain_population_witness :
  Instance.create Instance.path_graph (Instance.seeded_bag 3 1) 0
  = Ok ([ChainPopulation Instance.path_graph (Some [100; 200; 0])], 1).
Proof.
  apply (create_single_chain_population Instance.Individual_new
           Instance.algorithm_run Instance.well_formed);
    vm_compute; reflexivity.
Defined.

(** C1, on the code.  Four individuals in two chunks: chunks [[0; 1]] and
    [[2; 3]].  Chunk 0 is wired to the tail and the head of chunk 1.
    Chunk 1 gets the head of chunk 0 as [next_individual], but as
    [prev_individual] it gets individual 3, the tail of chunk 1 itself,
    where chunk [(1 - 1) mod 2 = 0] has tail 1. *)
Theorem create_second_chunk_prev :
  _list_chunks (Some [0; 1; 2; 3]) 4 2 = Ok [[0; 1]; [2; 3]]
  /\ Instance.create Instance.path_graph (Instance.bag 4 2) 0
     = Ok ([ ChainChunk Instance.path_graph [0; 1] 3 2;
             ChainChunk Instance.path_graph [2; 3] 3 0 ], 4)
  /\ last [0; 1] = Some 1
  /\ last [2; 3] = Some 3.
Proof. repeat split; vm_compute; reflexivity. Qed.

Lemma create_undersized_fails_validation_witness :
  Instance.create Instance.path_graph (Instance.bag 2 5) 0
  = Err (ValidationError "population_size").
Proof.
  destruct (create_undersized_fails_validation Instance.Individual_new
              Instance.algorithm_run Instance.well_formed
              Instance.path_graph (Instance.bag 2 5) 0 2 5)
    as (key & Hv & Hc); [reflexivity | reflexivity | lia |].
  vm_compute in Hv. injection Hv as <-. exact Hc.
Defined.


(** ** The procedures *)

(** C4 does not hold of the code: a caller's bag without any of the
    required keys is not turned down, the search runs with the three
    colours of the module's table; and so it does for a caller asking for
    five colours. *)
Lemma run_algorithm_caller_bag_counterexample :
  Instance._run_algorithm Instance.path_graph ∅ tt = Ok ([3], tt)
  /\ Instance._run_algorithm Instance.path_graph
       {["no_of_colors"%string := PInt 5]} tt
     = Ok ([3], tt)
  /\ Instance.color_graph Instance.host ∅ (0%nat, tt)
     = Ok ([mkRecord "0" "3"], (4%nat, tt)).
Proof. repeat split; vm_compute; reflexivity. Qed.

(** C4, as the code has it.  Whatever the caller's bag, [color_graph] and
    [color_subgraph] run the search on a bag in which every key the caller
    left out has the value of the table [_default_parameters]; a missing
    key does not fail the call. *)
Theorem run_algorithm_defaults (parameters : Parameters) :
  exists consumed : Parameters,
    (forall key, parameters !! key = None ->
                 consumed !! key = _default_parameters !! key)
    /\ forall (search_state Solution : Type)
              (chromosome : Solution -> list Z)
              (QA_run : Graph -> Parameters -> M search_state Solution)
              (label : Graph -> Z -> string),
         (forall g,
             _run_algorithm search_state Solution chromosome QA_run
               g parameters
             = (let* sol := QA_run g consumed in ret (chromosome sol)))
         /\ (forall context,
               color_graph search_state Solution chromosome QA_run label
                 context parameters
               = (let* g := polling search_state (_convert_to_graph context) in
                  let* sol := searching search_state
                                (let* sol := QA_run g consumed in
                                 ret (chromosome sol)) in
                  ret (records label g sol)))
         /\ (forall context vertices edges,
               color_subgraph search_state Solution chromosome QA_run label
                 context vertices edges parameters
               = (let* g := polling search_state
                              (_convert_to_subgraph context vertices edges) in
                  let* sol := searching search_state
                                (let* sol := QA_run g consumed in
                                 ret (chromosome sol)) in
                  ret (records label g sol))).
Proof. exists _default_parameters. by repeat split. Qed.

Lemma run_algorithm_defaults_witness :
  exists consumed : Parameters,
    consumed !! "no_of_colors"%string = Some (PInt 3)
    /\ Instance._run_algorithm Instance.path_graph ∅
       = (let* sol := Instance.QA_run Instance.path_graph consumed in
          ret (Instance.chromosome sol)).
Proof.
  destruct (run_algorithm_defaults ∅) as (consumed & Hdefault & Hrun).
  exists consumed. split.
  - rewrite Hdefault by reflexivity. reflexivity.
  - apply (Hrun unit Instance.Solution Instance.chromosome Instance.QA_run
             (fun _ n => pretty n)).
Defined.

(** * Further properties of the conversion *)

(** ** The adjacency sequences, entry by entry *)

Lemma adj_append_lookup k x (adj : AdjList) u :
  adj_append k x adj !!! u
  = adj !!! u ++ (if decide (u = k) then [x] else []).
Proof.
  unfold adj_append. destruct (decide (u = k)) as [->|Hne].
  - by rewrite lookup_total_insert_eq.
  - rewrite lookup_total_insert_ne by done. by rewrite app_nil_r.
Qed.

Lemma add_edge_lookup e adj adj' u :
  add_edge e adj = Ok adj' -> adj' !!! u = adj !!! u ++ edge_entries u e.
Proof.
  unfold add_edge, edge_entries.
  destruct (mgp.properties e !! "weight"%string) as [weight|]; [|done].
  intros [= <-]. by rewrite !adj_append_lookup, <- app_assoc.
Qed.

Lemma add_out_edges_lookup es adj adj' u :
  add_out_edges es adj = Ok adj' ->
  adj' !!! u = adj !!! u ++ concat (edge_entries u <$> es).
Proof.
  revert adj. induction es as [|e es IH]; simpl; intros adj.
  - intros [= <-]. by rewrite app_nil_r.
  - destruct (add_edge e adj) as [adj1|] eqn:He; [|done]. simpl.
    intros Hes. rewrite (IH _ Hes), (add_edge_lookup _ _ _ _ He).
    by rewrite <- app_assoc.
Qed.

Lemma collect_out_edges_lookup ctx vs adj polls adj' polls' u :
  collect_out_edges ctx vs adj polls = Ok (adj', polls') ->
  adj' !!! u
  = adj !!! u ++ concat (edge_entries u <$> concat (mgp.out_edges <$> vs)).
Proof.
  revert adj polls. induction vs as [|v vs IH]; simpl; intros adj polls.
  - intros [= <- _]. by rewrite app_nil_r.
  - poll ctx polls; [|done]. unfold bind, lift.
    destruct (add_out_edges _ adj) as [adj1|] eqn:Hes; [|done].
    intros Hvs. rewrite (IH _ _ Hvs), (add_out_edges_lookup _ _ _ _ Hes).
    by rewrite fmap_app, concat_app, <- app_assoc.
Qed.

Lemma collect_edges_lookup ctx es adj polls adj' polls' u :
  collect_edges ctx es adj polls = Ok (adj', polls') ->
  adj' !!! u = adj !!! u ++ concat (edge_entries u <$> es).
Proof.
  revert adj polls. induction es as [|e es IH]; simpl; intros adj polls.
  - intros [= <- _]. by rewrite app_nil_r.
  - poll ctx polls; [|done]. unfold bind, lift.
    destruct (add_edge e adj) as [adj1|] eqn:He; [|done].
    intros Hes. rewrite (IH _ _ Hes), (add_edge_lookup _ _ _ _ He).
    by rewrite <- app_assoc.
Qed.

Lemma collect_nodes_ok ctx vs ns polls ns' polls' :
  collect_nodes ctx vs ns polls = Ok (ns', polls') ->
  ns' = ns ++ (mgp.id <$> vs)
  /\ polls' = (polls + length vs)%nat
  /\ forall k, (polls <= k < polls')%nat -> mgp.must_abort ctx k = false.
Proof.
  revert ns polls. induction vs as [|v vs IH]; simpl; intros ns polls.
  - intros [= <- <-]. rewrite app_nil_r. repeat split; [lia|]. intros; lia.
  - poll ctx polls; [|done]. intros Hvs.
    destruct (IH _ _ Hvs) as (-> & -> & Hpolls).
    rewrite <- app_assoc. repeat split; [lia|].
    intros k Hk. destruct (decide (k = polls)) as [->|]; [done|].
    apply Hpolls. lia.
Qed.

Lemma collect_out_edges_polls ctx vs adj polls adj' polls' :
  collect_out_edges ctx vs adj polls = Ok (adj', polls') ->
  polls' = (polls + length vs)%nat
  /\ forall k, (polls <= k < polls')%nat -> mgp.must_abort ctx k = false.
Proof.
  revert adj polls. induction vs as [|v vs IH]; simpl; intros adj polls.
  - intros [= _ <-]. split; [lia|]. intros; lia.
  - poll ctx polls; [|done]. unfold bind, lift.
    destruct (add_out_edges _ adj) as [adj1|]; [|done]. intros Hvs.
    destruct (IH _ _ Hvs) as (-> & Hpolls). split; [lia|].
    intros k Hk. destruct (decide (k = polls)) as [->|]; [done|].
    apply Hpolls. lia.
Qed.

Lemma collect_edges_polls ctx es adj polls adj' polls' :
  collect_edges ctx es adj polls = Ok (adj', polls') ->
  polls' = (polls + length es)%nat
  /\ forall k, (polls <= k < polls')%nat -> mgp.must_abort ctx k = false.
Proof.
  revert adj polls. induction es as [|e es IH]; simpl; intros adj polls.
  - intros [= _ <-]. split; [lia|]. intros; lia.
  - poll ctx polls; [|done]. unfold bind, lift.
    destruct (add_edge e adj) as [adj1|]; [|done]. intros Hes.
    destruct (IH _ _ Hes) as (-> & Hpolls). split; [lia|].
    intros k Hk. destruct (decide (k = polls)) as [->|]; [done|].
    apply Hpolls. lia.
Qed.

(** X1. The graph [_convert_to_subgraph] returns has the ids of the
    supplied vertices as its node list, in order and with repetitions kept,
    and node [u]'s adjacency sequence lists, in the order of the supplied
    edges, the entry [(to, weight)] of each edge leaving [u] and the entry
    [(from, weight)] of each edge entering [u]; nothing else is in it. *)
Theorem convert_to_subgraph_adjacency (context : mgp.ProcCtx)
    (vertices : list mgp.Vertex) (edges : list mgp.Edge)
    (polls polls' : nat) (g : Graph) :
  _convert_to_subgraph context vertices edges polls = Ok (g, polls') ->
  nodes g = mgp.id <$> vertices
  /\ forall u, neighbours g u = concat (edge_entries u <$> edges).
Proof.
  intros H. apply convert_to_subgraph_inv in H as (polls1 & Hn & He).
  apply collect_nodes_ok in Hn as (-> & _). split; [done|].
  intros u. unfold neighbours.
  rewrite (collect_edges_lookup _ _ _ _ _ _ u He).
  by rewrite lookup_total_empty.
Qed.

Lemma convert_to_subgraph_adjacency_witness :
  nodes Instance.dangling_graph = [1]
  /\ neighbours Instance.dangling_graph 1 = [(2, PInt 1)]
  /\ neighbours Instance.dangling_graph 2 = [(1, PInt 1)]
  /\ neighbours Instance.dangling_graph 3 = [].
Proof.
  destruct (convert_to_subgraph_adjacency Instance.host [Instance.v1]
              [Instance.e12] 0%nat 2%nat Instance.dangling_graph)
    as [Hn Ha]; [vm_compute; reflexivity|].
  split; [exact Hn|]. rewrite !Ha. by repeat split.
Defined.

(** X2. The graph [_convert_to_graph] returns has the ids of the stored
    vertices as its node list, in order, and node [u]'s adjacency sequence
    lists the entries of the outgoing edges of the stored vertices, vertex
    by vertex, [(to, weight)] for an edge leaving [u] and [(from, weight)]
    for an edge entering [u]; nothing else is in it. *)
Theorem convert_to_graph_adjacency (context : mgp.ProcCtx)
    (polls polls' : nat) (g : Graph) :
  _convert_to_graph context polls = Ok (g, polls') ->
  nodes g = mgp.id <$> mgp.vertices context
  /\ forall u,
       neighbours g u = concat (edge_entries u <$> host_edges context).
Proof.
  intros H. apply convert_to_graph_inv in H as (polls1 & Hn & He).
  apply collect_nodes_ok in Hn as (-> & _). split; [done|].
  intros u. unfold neighbours, host_edges.
  rewrite (collect_out_edges_lookup _ _ _ _ _ _ u He).
  by rewrite lookup_total_empty.
Qed.

Lemma convert_to_graph_adjacency_witness :
  exists g,
    _convert_to_graph Instance.host 0%nat = Ok (g, 4%nat)
    /\ nodes g = [1; 2]
    /\ neighbours g 1 = [(2, PInt 1)]
    /\ neighbours g 2 = [(1, PInt 1)].
Proof.
  eexists. split; [vm_compute; reflexivity|].
  match goal with
  | |- nodes ?g = _ /\ _ =>
      destruct (convert_to_graph_adjacency Instance.host 0%nat 4%nat g)
        as [Hn Ha]; [vm_compute; reflexivity|]
  end.
  split; [exact Hn|]. rewrite !Ha. by split.
Defined.

(** ** Cancellation polls *)

(** X3. A subgraph conversion that returns a graph has polled the host
    once per supplied vertex and once per supplied edge, and every one of
    these polls was answered "do not abort". *)
Theorem convert_to_subgraph_polls (context : mgp.ProcCtx)
    (vertices : list mgp.Vertex) (edges : list mgp.Edge)
    (polls polls' : nat) (g : Graph) :
  _convert_to_subgraph context vertices edges polls = Ok (g, polls') ->
  polls' = (polls + length vertices + length edges)%nat
  /\ forall k, (polls <= k < polls')%nat ->
               mgp.must_abort context k = false.
Proof.
  intros H. apply convert_to_subgraph_inv in H as (polls1 & Hn & He).
  apply collect_nodes_ok in Hn as (_ & -> & Hp1).
  apply collect_edges_polls in He as (-> & Hp2). split; [done|].
  intros k Hk.
  destruct (decide (k < polls + length vertices)%nat);
    [apply Hp1 | apply Hp2]; lia.
Qed.

Lemma convert_to_subgraph_polls_witness :
  2%nat = (0 + length [Instance.v1] + length [Instance.e12])%nat
  /\ mgp.must_abort Instance.host 1 = false.
Proof.
  destruct (convert_to_subgraph_polls Instance.host [Instance.v1]
              [Instance.e12] 0%nat 2%nat Instance.dangling_graph)
    as [Hn Hp]; [vm_compute; reflexivity|].
  split; [exact Hn|]. apply Hp. lia.
Defined.

(** X4. A full-graph conversion that returns a graph has polled the host
    twice per stored vertex (once in each of its two loops, and not once
    per edge), and every one of these polls was answered "do not
    abort". *)
Theorem convert_to_graph_polls (context : mgp.ProcCtx)
    (polls polls' : nat) (g : Graph) :
  _convert_to_graph context polls = Ok (g, polls') ->
  polls' = (polls + 2 * length (mgp.vertices context))%nat
  /\ forall k, (polls <= k < polls')%nat ->
               mgp.must_abort context k = false.
Proof.
  intros H. apply convert_to_graph_inv in H as (polls1 & Hn & He).
  apply collect_nodes_ok in Hn as (_ & -> & Hp1).
  apply collect_out_edges_polls in He as (-> & Hp2). split; [lia|].
  intros k Hk.
  destruct (decide (k < polls + length (mgp.vertices context))%nat);
    [apply Hp1 | apply Hp2]; lia.
Qed.

Lemma convert_to_graph_polls_witness :
  4%nat = (0 + 2 * length (mgp.vertices Instance.host))%nat
  /\ mgp.must_abort Instance.host 3 = false.
Proof.
  destruct (convert_to_graph_polls Instance.host 0%nat 4%nat
              (mkGraph [1; 2]
                 (adj_append 2 (1, PInt 1) (adj_append 1 (2, PInt 1) ∅))))
    as [Hn Hp]; [vm_compute; reflexivity|].
  split; [exact Hn|]. apply Hp. lia.
Defined.

Lemma collect_nodes_cases ctx vs ns polls :
  (exists ns' polls', collect_nodes ctx vs ns polls = Ok (ns', polls'))
  \/ collect_nodes ctx vs ns polls = Err AbortError.
Proof.
  revert ns polls. induction vs as [|v vs IH]; simpl; intros ns polls.
  - left. by exists ns, polls.
  - unfold bind, mgp.check_must_abort.
    destruct (mgp.must_abort ctx polls); [by right | apply IH].
Qed.

Lemma collect_out_edges_cases ctx vs adj polls :
  Forall (fun v =>
            Forall (fun e => is_Some (mgp.properties e !! "weight"%string))
                   (mgp.out_edges v)) vs ->
  (exists adj' polls', collect_out_edges ctx vs adj polls = Ok (adj', polls'))
  \/ collect_out_edges ctx vs adj polls = Err AbortError.
Proof.
  intros Hw. revert adj polls.
  induction Hw as [|v vs Hv _ IH]; simpl; intros adj polls.
  - left. by exists adj, polls.
  - unfold bind, lift, mgp.check_must_abort.
    destruct (mgp.must_abort ctx polls); [by right|].
    destruct (add_out_edges_weighted _ adj Hv) as [adj1 ->]. apply IH.
Qed.

Lemma collect_edges_cases ctx es adj polls :
  Forall (fun e => is_Some (mgp.properties e !! "weight"%string)) es ->
  (exists adj' polls', collect_edges ctx es adj polls = Ok (adj', polls'))
  \/ collect_edges ctx es adj polls = Err AbortError.
Proof.
  intros Hw. revert adj polls.
  induction Hw as [|e es [w He] _ IH]; simpl; intros adj polls.
  - left. by exists adj, polls.
  - unfold bind, lift, mgp.check_must_abort, add_edge.
    destruct (mgp.must_abort ctx polls); [by right|].
    rewrite He. apply IH.
Qed.

(** X5. Cancellation is honoured: when every edge read carries a weight
    and the host answers "abort" to one of the polls the conversion would
    make (one per vertex and one per edge in subgraph mode, two per vertex
    in full-graph mode), the conversion raises the abort error and returns
    no graph. *)
Theorem cancelled_conversion_aborts (context : mgp.ProcCtx)
    (vertices : list mgp.Vertex) (edges : list mgp.Edge)
    (polls k : nat) :
  mgp.must_abort context (polls + k) = true ->
  ((k < length vertices + length edges)%nat ->
   Forall (fun e => is_Some (mgp.properties e !! "weight"%string)) edges ->
   _convert_to_subgraph context vertices edges polls = Err AbortError)
  /\ ((k < 2 * length (mgp.vertices context))%nat ->
      Forall (fun v =>
                Forall (fun e =>
                          is_Some (mgp.properties e !! "weight"%string))
                       (mgp.out_edges v)) (mgp.vertices context) ->
      _convert_to_graph context polls = Err AbortError).
Proof.
  intros Habort. split; intros Hk Hw.
  - destruct (_convert_to_subgraph context vertices edges polls)
      as [[g polls']|err] eqn:H.
    + apply convert_to_subgraph_polls in H as (-> & Hp).
      rewrite Hp in Habort by lia. done.
    + f_equal. revert H. unfold _convert_to_subgraph, bind.
      destruct (collect_nodes_cases context vertices [] polls)
        as [(ns & polls1 & ->)| ->]; [|by intros [= <-]].
      destruct (collect_edges_cases context edges ∅ polls1 Hw)
        as [(adj & polls2 & ->)| ->]; [done|by intros [= <-]].
  - destruct (_convert_to_graph context polls) as [[g polls']|err] eqn:H.
    + apply convert_to_graph_polls in H as (-> & Hp).
      rewrite Hp in Habort by lia. done.
    + f_equal. revert H. unfold _convert_to_graph, bind.
      destruct (collect_nodes_cases context (mgp.vertices context) [] polls)
        as [(ns & polls1 & ->)| ->]; [|by intros [= <-]].
      destruct (collect_out_edges_cases context (mgp.vertices context)
                  ∅ polls1 Hw)
        as [(adj & polls2 & ->)| ->]; [done|by intros [= <-]].
Qed.

Lemma cancelled_conversion_aborts_witness :
  _convert_to_subgraph Instance.cancelling_host [Instance.v1]
    [Instance.e12] 0%nat = Err AbortError
  /\ _convert_to_graph Instance.cancelling_host 0%nat = Err AbortError.
Proof.
  destruct (cancelled_conversion_aborts Instance.cancelling_host
              [Instance.v1] [Instance.e12] 0%nat 1%nat) as [Hs Hg];
    [reflexivity|].
  split.
  - apply Hs; [simpl; lia|]. by repeat constructor.
  - apply Hg; [simpl; lia|]. by repeat constructor.
Defined.

(** ** Degrees *)

Lemma add_edge_weighted e adj adj' :
  add_edge e adj = Ok adj' ->
  is_Some (mgp.properties e !! "weight"%string).
Proof.
  unfold add_edge. destruct (mgp.properties e !! _); [eauto|done].
Qed.

Lemma add_out_edges_ok_weighted es adj adj' :
  add_out_edges es adj = Ok adj' ->
  Forall (fun e => is_Some (mgp.properties e !! "weight"%string)) es.
Proof.
  revert adj. induction es as [|e es IH]; simpl; intros adj; [done|].
  destruct (add_edge e adj) as [adj1|] eqn:He; [|done]. simpl.
  intros Hes. constructor; [by eapply add_edge_weighted | by eapply IH].
Qed.

Lemma collect_out_edges_ok_weighted ctx vs adj polls adj' polls' :
  collect_out_edges ctx vs adj polls = Ok (adj', polls') ->
  Forall (fun e => is_Some (mgp.properties e !! "weight"%string))
         (concat (mgp.out_edges <$> vs)).
Proof.
  revert adj polls. induction vs as [|v vs IH]; simpl; intros adj polls;
    [done|].
  poll ctx polls; [|done]. unfold bind, lift.
  destruct (add_out_edges _ adj) as [adj1|] eqn:Hes; [|done].
  intros Hvs. apply Forall_app. split.
  - by eapply add_out_edges_ok_weighted.
  - by eapply IH.
Qed.

Lemma collect_edges_ok_weighted ctx es adj polls adj' polls' :
  collect_edges ctx es adj polls = Ok (adj', polls') ->
  Forall (fun e => is_Some (mgp.properties e !! "weight"%string)) es.
Proof.
  revert adj polls. induction es as [|e es IH]; simpl; intros adj polls;
    [done|].
  poll ctx polls; [|done]. unfold bind, lift.
  destruct (add_edge e adj) as [adj1|] eqn:He; [|done].
  intros Hes. constructor; [by eapply add_edge_weighted | by eapply IH].
Qed.

Lemma length_edge_entries (u : Z) (es : list mgp.Edge) :
  Forall (fun e => is_Some (mgp.properties e !! "weight"%string)) es ->
  length (concat (edge_entries u <$> es))
  = (length (filter (fun e => mgp.from_vertex e = u) es)
     + length (filter (fun e => mgp.to_vertex e = u) es))%nat.
Proof.
  intros Hes. induction Hes as [|e es [w Hw] _ IH]; [done|].
  rewrite fmap_cons. cbn [concat]. rewrite length_app, IH, !filter_cons.
  unfold edge_entries. rewrite Hw.
  destruct (decide (u = mgp.from_vertex e)) as [Hf|Hf];
    destruct (decide (u = mgp.to_vertex e)) as [Ht|Ht];
    repeat case_decide; try congruence; simpl; lia.
Qed.

(** X6. In the graph a conversion returns, the length of node [u]'s
    adjacency sequence is the number of edges read that leave [u] plus the
    number of edges read that enter [u]: parallel edges are all kept and a
    self-loop counts twice.  The edges read are the supplied edges in
    subgraph mode and the outgoing edges of the stored vertices in
    full-graph mode. *)
Theorem converted_graph_degree (context : mgp.ProcCtx)
    (vertices : list mgp.Vertex) (edges : list mgp.Edge)
    (polls polls' : nat) (g : Graph) (u : Z) :
  (_convert_to_subgraph context vertices edges polls = Ok (g, polls') ->
   length (neighbours g u)
   = (length (filter (fun e => mgp.from_vertex e = u) edges)
      + length (filter (fun e => mgp.to_vertex e = u) edges))%nat)
  /\ (_convert_to_graph context polls = Ok (g, polls') ->
      length (neighbours g u)
      = (length (filter (fun e => mgp.from_vertex e = u)
                        (host_edges context))
         + length (filter (fun e => mgp.to_vertex e = u)
                          (host_edges context)))%nat).
Proof.
  split; intros H.
  - apply convert_to_subgraph_inv in H as (polls1 & _ & He).
    unfold neighbours. rewrite (collect_edges_lookup _ _ _ _ _ _ u He).
    rewrite lookup_total_empty. simpl.
    apply length_edge_entries. by eapply collect_edges_ok_weighted.
  - apply convert_to_graph_inv in H as (polls1 & _ & He).
    unfold neighbours, host_edges.
    rewrite (collect_out_edges_lookup _ _ _ _ _ _ u He).
    rewrite lookup_total_empty. simpl.
    apply length_edge_entries. by eapply collect_out_edges_ok_weighted.
Qed.

Lemma converted_graph_degree_witness :
  exists g,
    _convert_to_subgraph Instance.host [] [Instance.loop; Instance.e12;
                                           Instance.e12] 0%nat
    = Ok (g, 3%nat)
    /\ length (neighbours g 1) = 4%nat
    /\ length (neighbours g 2) = 2%nat.
Proof.
  eexists. split; [vm_compute; reflexivity|].
  match goal with
  | |- length (neighbours ?g _) = _ /\ _ =>
      split;
      [ apply (proj1 (converted_graph_degree Instance.host []
                 [Instance.loop; Instance.e12; Instance.e12]
                 0%nat 3%nat g 1))
      | apply (proj1 (converted_graph_degree Instance.host []
                 [Instance.loop; Instance.e12; Instance.e12]
                 0%nat 3%nat g 2)) ];
      vm_compute; reflexivity
  end.
Defined.

(** ** What the subgraph conversion reads *)

Lemma collect_nodes_ext ctx ctx' vs ns polls :
  (forall n, mgp.must_abort ctx n = mgp.must_abort ctx' n) ->
  collect_nodes ctx vs ns polls = collect_nodes ctx' vs ns polls.
Proof.
  intros Hsame. revert ns polls.
  induction vs as [|v vs IH]; simpl; intros ns polls; [done|].
  unfold bind, mgp.check_must_abort. rewrite Hsame.
  destruct (mgp.must_abort ctx' polls); [done|apply IH].
Qed.

Lemma collect_edges_ext ctx ctx' es adj polls :
  (forall n, mgp.must_abort ctx n = mgp.must_abort ctx' n) ->
  collect_edges ctx es adj polls = collect_edges ctx' es adj polls.
Proof.
  intros Hsame. revert adj polls.
  induction es as [|e es IH]; simpl; intros adj polls; [done|].
  unfold bind, lift, mgp.check_must_abort. rewrite Hsame.
  destruct (mgp.must_abort ctx' polls); [done|].
  destruct (add_edge e adj); [apply IH|done].
Qed.

(** X7. [_convert_to_subgraph] does not read the graph stored in the
    host: on two contexts that answer the cancellation polls alike it
    returns the same result for the same supplied vertices and edges,
    whatever the two stored graphs are. *)
Theorem convert_to_subgraph_ignores_stored_graph
    (context context' : mgp.ProcCtx)
    (vertices : list mgp.Vertex) (edges : list mgp.Edge) (polls : nat) :
  (forall n, mgp.must_abort context n = mgp.must_abort context' n) ->
  _convert_to_subgraph context vertices edges polls
  = _convert_to_subgraph context' vertices edges polls.
Proof.
  intros Hsame. unfold _convert_to_subgraph, bind.
  rewrite (collect_nodes_ext context context') by done.
  destruct (collect_nodes context' vertices [] polls) as [[ns polls1]|];
    [|done].
  by rewrite (collect_edges_ext context context').
Qed.

Lemma convert_to_subgraph_ignores_stored_graph_witness :
  _convert_to_subgraph Instance.host [Instance.v1] [Instance.e12] 0%nat
  = _convert_to_subgraph Instance.unweighted_host [Instance.v1]
      [Instance.e12] 0%nat.
Proof.
  apply (convert_to_subgraph_ignores_stored_graph Instance.host
           Instance.unweighted_host).
  reflexivity.
Defined.

(** ** The procedures end to end *)

Section ProceduresProperties.

Context {search_state Solution : Type}.
Context (chromosome : Solution -> list Z).
Context (QA_run : Graph -> Parameters -> M search_state Solution).
Context (label : Graph -> Z -> string).

Local Abbreviation color_graph :=
(color_graph search_state Solution chromosome QA_run label).
Local Abbreviation color_subgraph :=
(color_subgraph search_state Solution chromosome QA_run label).

Lemma records_lookup g (sol : list Z) (i : nat) :
records label g sol !! i
= (fun c => mkRecord (label g (Z.of_nat i)) (pretty c)) <$> sol !! i.
Proof.
unfold records, Py.enumerate.
rewrite list_lookup_fmap, list_lookup_imap.
by destruct (sol !! i).
Qed.

(** X8. On a host that does not request cancellation and whose edges all
  carry a weight, [color_graph] converts the stored graph, runs the
  search once on the converted graph, and returns one record per entry of
  the chromosome the search returned: record [i] pairs the label of node
  index [i] with the decimal rendering of colour [i].  An error of the
  search is passed on. *)
Theorem color_graph_result (context : mgp.ProcCtx)
  (parameters : Parameters) (polls : nat) (s : search_state) :
(forall n, mgp.must_abort context n = false) ->
Forall (fun v =>
          Forall (fun e => is_Some (mgp.properties e !! "weight"%string))
                 (mgp.out_edges v)) (mgp.vertices context) ->
exists g,
  _convert_to_graph context polls
  = Ok (g, (polls + 2 * length (mgp.vertices context))%nat)
  /\ color_graph context parameters (polls, s)
     = match QA_run g _default_parameters s with
       | Ok (sol, s') =>
           Ok (records label g (chromosome sol),
               ((polls + 2 * length (mgp.vertices context))%nat, s'))
       | Err e => Err e
       end
  /\ forall sol i,
       records label g sol !! i
       = (fun c => mkRecord (label g (Z.of_nat i)) (pretty c))
           <$> sol !! i.
Proof.
intros Hno Hw.
destruct (convert_to_graph_returns context polls Hno Hw)
  as (adj & polls' & Hg).
assert (polls' = (polls + 2 * length (mgp.vertices context))%nat) as ->.
{ apply convert_to_graph_inv in Hg as (polls1 & Hn & He).
  apply collect_nodes_ok in Hn as (_ & -> & _).
  apply collect_out_edges_polls in He as (-> & _). lia. }
eexists. split; [exact Hg|]. split; [|intros; apply records_lookup].
unfold color_graph, bind, polling, searching,
  _run_algorithm, bind, ret.
rewrite Hg.
by destruct (QA_run _ _default_parameters s) as [[sol s']|].
Qed.

(** X9. Likewise for [color_subgraph] on supplied vertices and edges: with
  no cancellation requested and every supplied edge weighted, it converts
  them, runs the search once on that graph, and returns one record per
  entry of the chromosome; the host has been polled once per supplied
  vertex and once per supplied edge. *)
Theorem color_subgraph_result (context : mgp.ProcCtx)
  (vertices : list mgp.Vertex) (edges : list mgp.Edge)
  (parameters : Parameters) (polls : nat) (s : search_state) :
(forall n, mgp.must_abort context n = false) ->
Forall (fun e => is_Some (mgp.properties e !! "weight"%string)) edges ->
exists g,
  _convert_to_subgraph context vertices edges polls
  = Ok (g, (polls + length vertices + length edges)%nat)
  /\ color_subgraph context vertices edges parameters (polls, s)
     = match QA_run g _default_parameters s with
       | Ok (sol, s') =>
           Ok (records label g (chromosome sol),
               ((polls + length vertices + length edges)%nat, s'))
       | Err e => Err e
       end.
Proof.
intros Hno Hw.
destruct (convert_to_subgraph_returns context vertices edges polls Hno Hw)
  as (adj & polls' & Hg).
assert (polls' = (polls + length vertices + length edges)%nat) as ->.
{ apply convert_to_subgraph_inv in Hg as (polls1 & Hn & He).
  apply collect_nodes_ok in Hn as (_ & -> & _).
  by apply collect_edges_polls in He as (-> & _). }
eexists. split; [exact Hg|].
unfold color_subgraph, bind, polling, searching,
  _run_algorithm, bind, ret.
rewrite Hg.
by destruct (QA_run _ _default_parameters s) as [[sol s']|].
Qed.

End ProceduresProperties.

Lemma color_graph_result_witness :
  Instance.color_graph Instance.host ∅ (0%nat, tt)
  = Ok ([mkRecord "0" "3"], (4%nat, tt)).
Proof.
  destruct (color_graph_result Instance.chromosome Instance.QA_run
              (fun _ n => pretty n) Instance.host ∅ 0%nat tt)
    as (g & Hg & Hc & _);
    [reflexivity | by repeat constructor |].
  unfold Instance.color_graph. rewrite Hc.
  vm_compute in Hg. injection Hg as <-. vm_compute. reflexivity.
Defined.

Lemma color_subgraph_result_witness :
  color_subgraph unit Instance.Solution Instance.chromosome Instance.QA_run
    (fun _ n => pretty n) Instance.host [Instance.v1] [Instance.e12] ∅
    (0%nat, tt)
  = Ok ([mkRecord "0" "3"], (2%nat, tt)).
Proof.
  destruct (color_subgraph_result Instance.chromosome Instance.QA_run
              (fun _ n => pretty n) Instance.host
              [Instance.v1] [Instance.e12] ∅ 0%nat tt)
    as (g & Hg & Hc);
    [reflexivity | by repeat constructor |].
  rewrite Hc. vm_compute in Hg. injection Hg as <-. vm_compute. reflexivity.
Defined.

(** * Further properties of the population factory *)

(** ** [_list_chunks] on any list *)

Lemma slice_nonneg {A} (l : list A) (a b : Z) :
  0 <= a -> a <= b ->
  Py.slice l a b = take (Z.to_nat (b - a)) (drop (Z.to_nat a) l).
Proof.
  intros Ha Hab. unfold Py.slice, Py.clamp.
  destruct (Z.ltb_spec a 0); [lia|]. destruct (Z.ltb_spec b 0); [lia|].
  set (len := Z.of_nat (length l)).
  destruct (Z.le_gt_cases len a) as [Hge|Hlt].
  - rewrite (drop_ge l (Z.to_nat a)) by lia.
    rewrite (drop_ge l (Z.to_nat _)) by lia. by rewrite !take_nil.
  - replace (Z.max 0 (Z.min len a)) with a by lia.
    destruct (Z.le_gt_cases b len) as [Hb|Hb].
    + by replace (Z.max 0 (Z.min len b)) with b by lia.
    + replace (Z.max 0 (Z.min len b)) with len by lia.
      rewrite !take_ge; [done|rewrite length_drop; lia..].
Qed.

Lemma cut_step_nonneg (p N i : Z) :
  0 <= p -> 1 <= N -> 0 <= i ->
  0 <= cut (p / N) (p mod N) i <= cut (p / N) (p mod N) (i + 1).
Proof.
  intros Hp HN Hi.
  assert (0 <= p / N) by (apply Z.div_pos; lia).
  assert (0 <= p mod N < N) by (apply Z.mod_pos_bound; lia).
  pose proof (cut_step (p / N) (p mod N) i) as Hs.
  split; [unfold cut; nia|]. destruct (i <? p mod N); lia.
Qed.

Lemma concat_slices {A} (l : list A) (p N : Z) (n : nat) :
  0 <= p -> 1 <= N ->
  concat ((fun i => Py.slice l (cut (p / N) (p mod N) i)
                               (cut (p / N) (p mod N) (i + 1)))
            <$> seqZ 0 (Z.of_nat n))
  = take (Z.to_nat (cut (p / N) (p mod N) (Z.of_nat n))) l.
Proof.
  intros Hp HN. induction n as [|n IH].
  - replace (cut (p / N) (p mod N) (Z.of_nat 0)) with 0; [done|].
    pose proof (Z.mod_pos_bound p N ltac:(lia)). unfold cut. lia.
  - rewrite Nat2Z.inj_succ, <- Z.add_1_r.
    rewrite seqZ_app by lia.
    change (seqZ (0 + Z.of_nat n) 1) with [Z.of_nat n].
    rewrite fmap_app, concat_app, IH. simpl. rewrite app_nil_r.
    pose proof (cut_step_nonneg p N (Z.of_nat n) Hp HN ltac:(lia)) as Hc.
    rewrite slice_nonneg by lia. rewrite take_take_drop. f_equal. lia.
Qed.

(** X10. For any list, any [population_size >= 0] and any
    [no_of_chunks >= 1], also when [population_size] is not the length of
    the list, [_list_chunks] returns [no_of_chunks] groups whose
    concatenation is the list cut off after [population_size] elements:
    no element is repeated or moved, and elements beyond
    [population_size] are dropped. *)
Theorem list_chunks_prefix {A} (individuals : list A)
    (population_size no_of_chunks : Z) :
  0 <= population_size -> 1 <= no_of_chunks ->
  exists chunks,
    _list_chunks (Some individuals) population_size no_of_chunks = Ok chunks
    /\ Z.of_nat (length chunks) = no_of_chunks
    /\ concat chunks = take (Z.to_nat population_size) individuals.
Proof.
  intros Hp HN. eexists. split; [by apply list_chunks_eq|]. split.
  - rewrite length_fmap, length_seqZ. lia.
  - pose proof (concat_slices individuals population_size no_of_chunks
                  (Z.to_nat no_of_chunks) Hp HN) as Hcat.
    rewrite Z2Nat.id in Hcat by lia. rewrite Hcat. do 2 f_equal.
    pose proof (Z.div_mod population_size no_of_chunks ltac:(lia)).
    pose proof (Z.mod_pos_bound population_size no_of_chunks ltac:(lia)).
    unfold cut. lia.
Qed.

Lemma list_chunks_prefix_witness :
  exists chunks,
    _list_chunks (Some [0; 1; 2; 3; 4; 5; 6]) 5 2 = Ok chunks
    /\ concat chunks = [0; 1; 2; 3; 4].
Proof.
  destruct (list_chunks_prefix [0; 1; 2; 3; 4; 5; 6] 5 2)
    as (chunks & Hc & _ & Hcat); [lia..|].
  by exists chunks.
Defined.

(** X11. The chunks are balanced for any number of chunks, also with more
    chunks than individuals: a later chunk is never longer than an earlier
    one, and no two chunk lengths differ by more than one. *)
Theorem list_chunks_balanced {A} (individuals : list A)
    (no_of_chunks : Z) (chunks : list (list A))
    (i j : nat) (chunk_i chunk_j : list A) :
  1 <= no_of_chunks ->
  _list_chunks (Some individuals) (Z.of_nat (length individuals))
    no_of_chunks = Ok chunks ->
  chunks !! i = Some chunk_i -> chunks !! j = Some chunk_j ->
  (i <= j)%nat ->
  (length chunk_j <= length chunk_i <= length chunk_j + 1)%nat.
Proof.
  intros HN Hchunks Hi Hj Hij.
  rewrite list_chunks_eq in Hchunks by done. injection Hchunks as <-.
  apply chunk_lookup_length in Hi; [|done].
  apply chunk_lookup_length in Hj; [|done].
  destruct (Z.ltb_spec (Z.of_nat i) (Z.of_nat (length individuals)
                                     mod no_of_chunks));
    destruct (Z.ltb_spec (Z.of_nat j) (Z.of_nat (length individuals)
                                       mod no_of_chunks)); lia.
Qed.

Lemma list_chunks_balanced_witness :
  (length [7; 8; 9]%Z <= length [0; 1; 2; 3]%Z
   <= length [7; 8; 9]%Z + 1)%nat.
Proof.
  apply (list_chunks_balanced [0; 1; 2; 3; 4; 5; 6; 7; 8; 9] 3
           [[0; 1; 2; 3]; [4; 5; 6]; [7; 8; 9]] 0%nat 2%nat);
    solve [lia | reflexivity].
Defined.

(** X12. No chunk is empty exactly when there are at least as many
    individuals as chunks. *)
Theorem list_chunks_nonempty_iff {A} (individuals : list A)
    (no_of_chunks : Z) (chunks : list (list A)) :
  1 <= no_of_chunks ->
  _list_chunks (Some individuals) (Z.of_nat (length individuals))
    no_of_chunks = Ok chunks ->
  Forall (fun chunk => chunk <> []) chunks
  <-> no_of_chunks <= Z.of_nat (length individuals).
Proof.
  intros HN Hchunks.
  rewrite list_chunks_eq in Hchunks by done. injection Hchunks as <-.
  set (p := Z.of_nat (length individuals)). split.
  - intros Hne. destruct (Z.le_gt_cases no_of_chunks p) as [|Hlt]; [done|].
    exfalso. rewrite Forall_lookup in Hne.
    destruct (lookup_lt_is_Some_2
                ((fun i => Py.slice individuals
                             (cut (p / no_of_chunks) (p mod no_of_chunks) i)
                             (cut (p / no_of_chunks) (p mod no_of_chunks)
                                  (i + 1))) <$> seqZ 0 no_of_chunks)
                (Z.to_nat (no_of_chunks - 1))) as [chunk Hchunk].
    { rewrite length_fmap, length_seqZ. lia. }
    pose proof Hchunk as Hlen.
    apply chunk_lookup_length in Hlen; [|done]. fold p in Hlen.
    rewrite Z.div_small, Z.mod_small in Hlen by lia.
    destruct (Z.ltb_spec (Z.of_nat (Z.to_nat (no_of_chunks - 1))) p);
      [lia|].
    apply (Hne _ _ Hchunk). destruct chunk; [done|simpl in Hlen; lia].
  - intros Hle. apply Forall_lookup. intros i chunk Hchunk ->.
    apply chunk_lookup_length in Hchunk; [|done]. fold p in Hchunk.
    simpl in Hchunk.
    assert (1 <= p / no_of_chunks) by (apply Z.div_le_lower_bound; lia).
    pose proof (Z.mod_pos_bound p no_of_chunks ltac:(lia)).
    destruct (Z.of_nat i <? p mod no_of_chunks); lia.
Qed.

Lemma list_chunks_nonempty_iff_witness :
  Forall (fun chunk : list Z => chunk <> []) [[0]; [1]; []; []; []]
  <-> 5 <= Z.of_nat (length [0; 1]).
Proof.
  apply (list_chunks_nonempty_iff [0; 1] 5); [lia|reflexivity].
Defined.

(** X13. The degenerate chunk counts.  With [no_of_chunks = 0] the call
    raises the division error; with a negative [no_of_chunks] it returns
    no chunk at all, without looking at the individuals (even when they
    are [None]); with [no_of_chunks >= 1] and [None] for the individuals
    it raises a type error. *)
Theorem list_chunks_degenerate {A} (individuals : option (list A))
    (population_size no_of_chunks : Z) :
  (no_of_chunks = 0 ->
   _list_chunks individuals population_size no_of_chunks
   = Err ZeroDivisionError)
  /\ (no_of_chunks < 0 ->
      _list_chunks individuals population_size no_of_chunks = Ok [])
  /\ (1 <= no_of_chunks ->
      _list_chunks (@None (list A)) population_size no_of_chunks
      = Err TypeError).
Proof.
  unfold _list_chunks, Py.divmod, Py.range. repeat split.
  - by intros ->.
  - intros HN. destruct (Z.eqb_spec no_of_chunks 0); [lia|]. simpl.
    replace (seqZ 0 no_of_chunks) with (@nil Z); [done|].
    symmetry. apply length_zero_iff_nil. rewrite length_seqZ. lia.
  - intros HN. destruct (Z.eqb_spec no_of_chunks 0); [lia|]. simpl.
    destruct (seqZ 0 no_of_chunks) eqn:E; [|done].
    apply (f_equal length) in E. rewrite length_seqZ in E. simpl in E. lia.
Qed.

Lemma list_chunks_degenerate_witness :
  _list_chunks (Some [1; 2; 3]) 3 0 = Err ZeroDivisionError
  /\ _list_chunks (@None (list Z)) 3 (-2) = Ok []
  /\ _list_chunks (@None (list Z)) 3 2 = Err TypeError.
Proof.
  split; [|split].
  - by apply (list_chunks_degenerate (Some [1; 2; 3]) 3 0).
  - apply (list_chunks_degenerate (@None (list Z)) 3 (-2)). lia.
  - apply (list_chunks_degenerate (@None (list Z)) 3 2). lia.
Defined.

(** ** Seeding and wiring *)

Section PopulationFactoryFurther.

Context {Individual rng : Type}.
Context (Individual_new : option pvalue -> Graph -> rng -> Individual * rng).
Context (algorithm_run :
         Algorithm -> Graph -> Parameters -> rng -> option Individual * rng).
Context (well_formed : string -> pvalue -> bool).

Local Abbreviation validate := (validate well_formed).
Local Abbreviation run_algorithms :=
(run_algorithms Individual rng algorithm_run).
Local Abbreviation generate_individuals :=
(generate_individuals Individual rng Individual_new algorithm_run
   well_formed).
Local Abbreviation create :=
(create Individual rng Individual_new algorithm_run well_formed).

(** X14. Whenever [generate_individuals] returns a list, the list has
  [population_size] elements (none for a negative [population_size]),
  however many seeding algorithms are configured. *)
Theorem generate_individuals_size g (ps : Parameters) s p individuals s1 :
ps !! "population_size"%string = Some (PInt p) ->
generate_individuals g ps s = Ok (Some individuals, s1) ->
length individuals = Z.to_nat p.
Proof.
intros Hp H.
destruct (generate_individuals_inv _ _ _ _ _ _ _ H) as (Hv & algs & Halgs).
rewrite (generate_individuals_eq _ _ _ g ps s p algs) in H by done.
destruct (run_algorithms algs g ps s) as [[outs|] s0]; [|done].
simpl in H.
pose proof (random_individuals_length Individual_new
  (Z.to_nat (p - Z.of_nat (length (take (Z.to_nat p) outs))))
  (ps !! "no_of_colors"%string) g s0) as Hlen.
destruct (random_individuals _ _ _ _ _ g s0) as [fresh s2].
injection H as <- _. simpl in Hlen.
rewrite length_app, Hlen, length_take. lia.
Qed.

Lemma run_algorithms_failure pre a post g (ps : Parameters) s outs s1 s2 :
run_algorithms pre g ps s = (Some outs, s1) ->
algorithm_run a g ps s1 = (None, s2) ->
run_algorithms (pre ++ a :: post) g ps s = (None, s2).
Proof.
revert s outs. induction pre as [|b pre IH]; simpl; intros s outs.
- intros [= _ <-] Ha. by rewrite Ha.
- destruct (algorithm_run b g ps s) as [[indv|] s0]; [|done].
  destruct (run_algorithms pre g ps s0) as [[rest|] s3] eqn:Hpre;
    [|done].
  simpl. intros [= _ <-] Ha. by rewrite (IH _ _ Hpre Ha).
Qed.

(** X15. The first seeding algorithm that returns no individual ends
  [generate_individuals] with [None], also when the population was
  already full and its output would have been dropped; the algorithms
  configured after it are not run, the generator is left as the failing
  algorithm left it, and no random individual is built. *)
Theorem generate_individuals_stops_at_failure g (ps : Parameters) s p
  pre a post outs s1 s2 :
validate ["population_size"; "no_of_colors"]%string g ps = Ok tt ->
ps !! "population_size"%string = Some (PInt p) ->
ps !! "algorithms"%string = Some (PAlgs (pre ++ a :: post)) ->
run_algorithms pre g ps s = (Some outs, s1) ->
algorithm_run a g ps s1 = (None, s2) ->
generate_individuals g ps s = Ok (None, s2).
Proof.
intros Hv Hp Halgs Hpre Ha.
rewrite (generate_individuals_eq _ _ _ g ps s p (pre ++ a :: post));
  [|done..|by unfold configured_algorithms; rewrite Halgs].
by rewrite (run_algorithms_failure pre a post g ps s outs s1 s2).
Qed.

(** X16. With at least as many seeding algorithms as [population_size],
  all of them succeeding, the result consists of algorithm outputs only:
  the first [population_size] of them; every algorithm is still run, the
  random constructor is not called, and the generator is left as the
  last algorithm left it. *)
Theorem generate_individuals_seeds_only g (ps : Parameters) s p
  algs outs s1 :
validate ["population_size"; "no_of_colors"]%string g ps = Ok tt ->
ps !! "population_size"%string = Some (PInt p) ->
configured_algorithms ps = Some algs ->
p <= Z.of_nat (length algs) ->
run_algorithms algs g ps s = (Some outs, s1) ->
generate_individuals g ps s = Ok (Some (take (Z.to_nat p) outs), s1).
Proof.
intros Hv Hp Halgs Hle Hrun.
rewrite (generate_individuals_eq _ _ _ g ps s p algs), Hrun by done.
simpl.
pose proof (run_algorithms_length _ _ _ _ _ _ _ Hrun) as Hlen.
replace (Z.to_nat (p - Z.of_nat (length (take (Z.to_nat p) outs))))
  with 0%nat by (rewrite length_take; lia).
simpl. by rewrite app_nil_r.
Qed.

Lemma list_chunks_concat {A} (l : list A) (N : Z) chunks :
1 <= N ->
_list_chunks (Some l) (Z.of_nat (length l)) N = Ok chunks ->
Z.of_nat (length chunks) = N /\ concat chunks = l.
Proof.
intros HN Hchunks.
rewrite list_chunks_eq in Hchunks by done. injection Hchunks as <-.
split; [rewrite length_fmap, length_seqZ; lia|].
pose proof (concat_chunks l N HN (Z.to_nat N)) as Hcat.
rewrite Z2Nat.id, cut_last in Hcat by lia.
rewrite Hcat by lia. apply take_ge. lia.
Qed.

(** X17. With two chunks or more and at least as many individuals as
  chunks, [create] returns one [ChainChunk] per chunk, in order, and the
  chunks' individuals, concatenated, are the generated individuals: each
  individual is owned by exactly one chunk.  The generator is left as
  the generation left it. *)
Theorem create_partitions_population g (ps : Parameters) s p N
  individuals s1 :
validate ["population_size"; "no_of_chunks"]%string g ps = Ok tt ->
ps !! "population_size"%string = Some (PInt p) ->
ps !! "no_of_chunks"%string = Some (PInt N) ->
2 <= N <= p ->
generate_individuals g ps s = Ok (Some individuals, s1) ->
exists chunks populations,
  create g ps s = Ok (populations, s1)
  /\ length populations = Z.to_nat N
  /\ concat chunks = individuals
  /\ Forall2 (fun population chunk =>
                exists prev next,
                  population = ChainChunk g chunk prev next)
             populations chunks.
Proof.
intros Hv Hp HN HNp Hgen.
destruct (create_wiring Individual_new algorithm_run well_formed
            g ps s p N individuals s1)
  as (chunks & pops & Hchunks & Hcreate & Hlen & Hall); [done..|].
pose proof (generate_individuals_length _ _ _ _ _ _ _ _ _ Hp Hgen) as Hl.
replace p with (Z.of_nat (length individuals)) in Hchunks by lia.
apply list_chunks_concat in Hchunks as [Hsize Hcat]; [|lia].
exists chunks, pops. repeat split; try done.
apply Forall2_same_length_lookup_2; [lia|].
intros i pop chunk Hpop Hchunk.
destruct (Hall i chunk Hchunk) as (prev & next & Hpop' & _).
rewrite Hpop in Hpop'. injection Hpop' as ->. by exists prev, next.
Qed.

(** X18. The ring as [create] wires it, for two chunks or more and at
  least as many individuals as chunks.  For every chunk index [i],
  [next_individual] is the first individual of chunk [(i + 1) mod N];
  and for every chunk index [i] other than 1, [prev_individual] is the
  last individual of chunk [(i - 1) mod N]. *)
Theorem create_ring g (ps : Parameters) s p N individuals s1 :
validate ["population_size"; "no_of_chunks"]%string g ps = Ok tt ->
ps !! "population_size"%string = Some (PInt p) ->
ps !! "no_of_chunks"%string = Some (PInt N) ->
2 <= N <= p ->
generate_individuals g ps s = Ok (Some individuals, s1) ->
exists chunks populations,
  _list_chunks (Some individuals) p N = Ok chunks
  /\ create g ps s = Ok (populations, s1)
  /\ forall i : nat,
       Z.of_nat i < N ->
       exists chunk prev next,
         chunks !! i = Some chunk
         /\ populations !! i = Some (ChainChunk g chunk prev next)
         /\ chunks !! Z.to_nat ((Z.of_nat i + 1) mod N) ≫= head
            = Some next
         /\ (i <> 1%nat ->
             chunks !! Z.to_nat ((Z.of_nat i - 1) mod N) ≫= last
             = Some prev).
Proof.
intros Hv Hp HN HNp Hgen.
destruct (create_wiring Individual_new algorithm_run well_formed
            g ps s p N individuals s1)
  as (chunks & pops & Hchunks & Hcreate & Hlen & Hall); [done..|].
exists chunks, pops. split; [done|]. split; [done|].
intros i Hi.
destruct (lookup_lt_is_Some_2 chunks i) as [chunk Hchunk].
{ rewrite list_chunks_eq in Hchunks by lia. injection Hchunks as <-.
  rewrite length_fmap, length_seqZ. lia. }
destruct (Hall i chunk Hchunk) as (prev & next & Hpop & Hprev & Hnext).
exists chunk, prev, next. repeat split; try done.
intros Hne. rewrite <- Hprev. do 3 f_equal.
destruct (Z.gtb_spec (Z.of_nat i - 1) 0).
- by rewrite Z.mod_small by lia.
- replace (Z.of_nat i - 1) with (-1) by lia.
  replace (-1) with (N - 1 + (-1) * N) by lia.
  rewrite Z.mod_add by lia. by rewrite Z.mod_small by lia.
Qed.

Lemma elem_of_concat_2 {A} (x : A) (c : list A) (cs : list (list A)) :
x ∈ c -> c ∈ cs -> x ∈ concat cs.
Proof.
rewrite !list_elem_of_In. intros Hx Hc.
apply in_concat. eauto.
Qed.

(** X19. The neighbour references never leave the population: in every
  [ChainChunk] that [create] returns, [prev_individual],
  [next_individual] and the chunk's own individuals are all among the
  generated individuals. *)
Theorem create_neighbours_in_population g (ps : Parameters) s p N
  individuals s1 :
validate ["population_size"; "no_of_chunks"]%string g ps = Ok tt ->
ps !! "population_size"%string = Some (PInt p) ->
ps !! "no_of_chunks"%string = Some (PInt N) ->
2 <= N <= p ->
generate_individuals g ps s = Ok (Some individuals, s1) ->
exists populations,
  create g ps s = Ok (populations, s1)
  /\ forall population,
       population ∈ populations ->
       exists chunk prev next,
         population = ChainChunk g chunk prev next
         /\ prev ∈ individuals
         /\ next ∈ individuals
         /\ forall x, x ∈ chunk -> x ∈ individuals.
Proof.
intros Hv Hp HN HNp Hgen.
destruct (create_wiring Individual_new algorithm_run well_formed
            g ps s p N individuals s1)
  as (chunks & pops & Hchunks & Hcreate & Hlen & Hall); [done..|].
pose proof (generate_individuals_length _ _ _ _ _ _ _ _ _ Hp Hgen) as Hl.
replace p with (Z.of_nat (length individuals)) in Hchunks by lia.
apply list_chunks_concat in Hchunks as [Hsize Hcat]; [|lia].
exists pops. split; [done|].
intros pop [i Hpop]%list_elem_of_lookup.
apply lookup_lt_Some in Hpop as Hi.
destruct (lookup_lt_is_Some_2 chunks i) as [chunk Hchunk]; [lia|].
destruct (Hall i chunk Hchunk) as (prev & next & Hpop' & Hprev & Hnext).
rewrite Hpop in Hpop'. injection Hpop' as ->.
exists chunk, prev, next. split; [done|]. rewrite <- Hcat.
split; [|split].
- destruct (chunks !! Z.to_nat _) as [pc|] eqn:Hpc in Hprev; [|done].
  simpl in Hprev. apply last_Some_elem_of in Hprev.
  apply (elem_of_concat_2 _ pc); [done|by eapply list_elem_of_lookup_2].
- destruct (chunks !! Z.to_nat _) as [nc|] eqn:Hnc in Hnext; [|done].
  simpl in Hnext. apply head_Some_elem_of in Hnext.
  apply (elem_of_concat_2 _ nc); [done|by eapply list_elem_of_lookup_2].
- intros x Hx.
  apply (elem_of_concat_2 _ chunk); [done|by eapply list_elem_of_lookup_2].
Qed.

(** X20. The degenerate chunk counts in [create], on a bag that passes the
  entry validation and whose generation returns (a list or [None]): with
  [no_of_chunks = 0] the division error of [_list_chunks] comes out of
  [create]; with a negative [no_of_chunks] [create] returns an empty
  list of populations and no error. *)
Theorem create_degenerate_chunk_counts g (ps : Parameters) s p N
  individuals s1 :
validate ["population_size"; "no_of_chunks"]%string g ps = Ok tt ->
ps !! "population_size"%string = Some (PInt p) ->
ps !! "no_of_chunks"%string = Some (PInt N) ->
generate_individuals g ps s = Ok (individuals, s1) ->
(N = 0 -> create g ps s = Err ZeroDivisionError)
/\ (N < 0 -> create g ps s = Ok ([], s1)).
Proof.
intros Hv Hp HN Hgen.
assert (Hcreate : create g ps s
  = match _list_chunks individuals p N with
    | Ok chunks =>
        lift (mapM (wire Individual g chunks N) (Py.enumerate chunks)) s1
    | Err e => Err e
    end \/ N = 1).
{ destruct (Z.eq_dec N 1) as [->|Hne]; [by right|left].
  unfold create. rewrite Hv. unfold bind, lift at 1. rewrite Hgen.
  unfold param_value. rewrite Hp, HN. simpl.
  destruct (Z.eqb_spec N 1); [done|]. simpl.
  unfold lift at 1. by destruct (_list_chunks individuals p N). }
split; intros HN0; destruct Hcreate as [-> | ->]; try lia.
- subst N. by unfold _list_chunks, Py.divmod.
- unfold _list_chunks, Py.divmod, Py.range.
  destruct (Z.eqb_spec N 0); [lia|]. simpl.
  replace (seqZ 0 N) with (@nil Z); [done|].
  symmetry. apply length_zero_iff_nil. rewrite length_seqZ. lia.
Qed.

End PopulationFactoryFurther.

Lemma generate_individuals_size_witness :
  length [100; 200; 0] = Z.to_nat 3.
Proof.
  apply (generate_individuals_size Instance.Individual_new
           Instance.algorithm_run Instance.well_formed
           Instance.path_graph (Instance.seeded_bag 3 1) 0 3
           [100; 200; 0] 1);
    vm_compute; reflexivity.
Defined.

Lemma generate_individuals_stops_at_failure_witness :
  Instance.generate_individuals Instance.empty_graph
    (Instance.seeded_bag 7 1) 0 = Ok (None, 0).
Proof.
  apply (generate_individuals_stops_at_failure Instance.Individual_new
           Instance.algorithm_run Instance.well_formed
           Instance.empty_graph (Instance.seeded_bag 7 1) 0 7
           [] LDO [SDO] [] 0 0);
    vm_compute; reflexivity.
Defined.

Lemma generate_individuals_seeds_only_witness :
  Instance.generate_individuals Instance.path_graph
    (Instance.seeded_bag 1 1) 0 = Ok (Some [100], 0).
Proof.
  apply (generate_individuals_seeds_only Instance.Individual_new
           Instance.algorithm_run Instance.well_formed
           Instance.path_graph (Instance.seeded_bag 1 1) 0 1
           [LDO; SDO] [100; 200] 0);
    solve [vm_compute; reflexivity | simpl; lia].
Defined.

Lemma create_partitions_population_witness :
  exists chunks populations,
    Instance.create Instance.path_graph (Instance.bag 4 2) 0
    = Ok (populations, 4)
    /\ length populations = 2%nat
    /\ concat chunks = [0; 1; 2; 3].
Proof.
  destruct (create_partitions_population Instance.Individual_new
              Instance.algorithm_run Instance.well_formed
              Instance.path_graph (Instance.bag 4 2) 0 4 2 [0; 1; 2; 3] 4)
    as (chunks & pops & Hc & Hlen & Hcat & _);
    [vm_compute; reflexivity | reflexivity | reflexivity | lia
    | vm_compute; reflexivity |].
  by exists chunks, pops.
Defined.

Lemma create_ring_witness :
  exists chunks populations,
    _list_chunks (Some [0; 1; 2; 3]) 4 2 = Ok chunks
    /\ Instance.create Instance.path_graph (Instance.bag 4 2) 0
       = Ok (populations, 4)
    /\ exists chunk prev next,
         populations !! 0%nat
         = Some (ChainChunk Instance.path_graph chunk prev next)
         /\ chunks !! 1%nat ≫= head = Some next
         /\ chunks !! 1%nat ≫= last = Some prev.
Proof.
  destruct (create_ring Instance.Individual_new
              Instance.algorithm_run Instance.well_formed
              Instance.path_graph (Instance.bag 4 2) 0 4 2 [0; 1; 2; 3] 4)
    as (chunks & pops & Hchunks & Hc & Hring);
    [vm_compute; reflexivity | reflexivity | reflexivity | lia
    | vm_compute; reflexivity |].
  exists chunks, pops. split; [done|]. split; [done|].
  destruct (Hring 0%nat ltac:(lia))
    as (chunk & prev & next & _ & Hpop & Hnext & Hprev).
  exists chunk, prev, next. split; [done|]. split; [done|].
  by apply Hprev.
Defined.

Lemma create_neighbours_in_population_witness :
  exists populations,
    Instance.create Instance.path_graph (Instance.bag 4 2) 0
    = Ok (populations, 4)
    /\ forall population,
         population ∈ populations ->
         exists chunk prev next,
           population = ChainChunk Instance.path_graph chunk prev next
           /\ prev ∈ [0; 1; 2; 3] /\ next ∈ [0; 1; 2; 3].
Proof.
  destruct (create_neighbours_in_population Instance.Individual_new
              Instance.algorithm_run Instance.well_formed
              Instance.path_graph (Instance.bag 4 2) 0 4 2 [0; 1; 2; 3] 4)
    as (pops & Hc & Hin);
    [vm_compute; reflexivity | reflexivity | reflexivity | lia
    | vm_compute; reflexivity |].
  exists pops. split; [done|]. intros pop Hpop.
  destruct (Hin pop Hpop) as (chunk & prev & next & ? & ? & ? & _).
  by exists chunk, prev, next.
Defined.

Lemma create_degenerate_chunk_counts_witness :
  Instance.create Instance.path_graph (Instance.bag 4 0) 0
  = Err ZeroDivisionError
  /\ Instance.create Instance.path_graph (Instance.bag 4 (-3)) 0
     = Ok ([], 4).
Proof.
  split.
  - apply (create_degenerate_chunk_counts Instance.Individual_new
             Instance.algorithm_run Instance.well_formed
             Instance.path_graph (Instance.bag 4 0) 0 4 0
             (Some [0; 1; 2; 3]) 4);
      solve [vm_compute; reflexivity | reflexivity].
  - apply (create_degenerate_chunk_counts Instance.Individual_new
             Instance.algorithm_run Instance.well_formed
             Instance.path_graph (Instance.bag 4 (-3)) 0 4 (-3)
             (Some [0; 1; 2; 3]) 4);
      solve [vm_compute; reflexivity | lia].
Defined.
